(** * ORION field agent: runtime and driver plug-in model

    A shallow embedding of [raspiagent-py/agent.py], of the binary-frame
    parser of [raspiagent-py/drivers/dfrobot_ult_driver.py] and of the
    weather driver of [raspiagent-py/drivers/openweather_driver.py].

    - Python values that come from JSON are terms of [json]; a [dict] is its
      item list, looked up by key.
    - The agent's two dictionaries ([driver_instances], [last_read_times])
      are finite maps.
    - Every method of [Agent] is a computation in a state-and-exception
      monad: the state survives a raised exception, as the attributes of
      [self] do.
    - The outside world (HTTP server, clock, driver files, hardware) is a
      [Host]: a world type and one transition function per call the agent
      makes.  Theorems quantify over every host.
    - Every call that leaves the process is appended to a trace.
    - Times and frequencies are integers (seconds, or any finer unit):
      the rounding of floating-point numbers is not modelled. *)

From stdpp Require Import base option list strings pretty gmap.
From Stdlib Require Import ZArith Lia QArith Qcanon.
From Stdlib.Strings Require Import Byte Ascii String.

#[local] Set Warnings "-register-all".
#[local] Open Scope string_scope.
#[local] Open Scope list_scope.
#[local] Open Scope Z_scope.

(** ** Python values *)

Inductive json : Type :=
| JNull
| JBool (b : bool)
| JNum (n : Z)
| JStr (s : string)
| JArr (l : list json)
| JObj (kvs : list (string * json)).

(** The exception classes the agent distinguishes: [requests]' own
    ([RequestException] and its subclasses), and everything else that
    [except Exception] catches. *)
Inductive exn : Type :=
| RequestException
| KeyError
| TypeError
| AttributeError
| OtherException.

Definition is_request_exception (e : exn) : bool :=
  match e with RequestException => true | _ => false end.

Inductive res (A : Type) : Type :=
| Ret (a : A)
| Raise (e : exn).
Arguments Ret {A} a.
Arguments Raise {A} e.

Module Py.

(** [bool(x)] *)
Definition truthy (x : json) : bool :=
  match x with
  | JNull => false
  | JBool b => b
  | JNum n => negb (n =? 0)
  | JStr s => negb (String.eqb s "")
  | JArr l => match l with [] => false | _ => true end
  | JObj kvs => match kvs with [] => false | _ => true end
  end.

(** Item lookup in a dict's item list. *)
Fixpoint assoc (k : string) (kvs : list (string * json)) : option json :=
  match kvs with
  | [] => None
  | (k', v) :: rest => if String.eqb k k' then Some v else assoc k rest
  end.

(** [x.get(k)]: [None] when the key is absent; only a dict has [get]. *)
Definition get (x : json) (k : string) : res json :=
  match x with
  | JObj kvs => Ret (default JNull (assoc k kvs))
  | _ => Raise AttributeError
  end.

(** [x.get(k, d)] *)
Definition get_default (x : json) (k : string) (d : json) : res json :=
  match x with
  | JObj kvs => Ret (default d (assoc k kvs))
  | _ => Raise AttributeError
  end.

(** [x[k]] for a string key [k]. *)
Definition item (x : json) (k : string) : res json :=
  match x with
  | JObj kvs =>
      match assoc k kvs with Some v => Ret v | None => Raise KeyError end
  | _ => Raise TypeError
  end.

(** A value used as a number: [bool] is a subclass of [int]. *)
Definition as_num (x : json) : res Z :=
  match x with
  | JNum n => Ret n
  | JBool b => Ret (if b then 1 else 0)
  | _ => Raise TypeError
  end.

(** [x == y] on JSON values: numbers and booleans compare by value,
    lists position by position, dicts key by key. *)
Fixpoint eqb (x y : json) {struct x} : bool :=
  match x, y with
  | JNull, JNull => true
  | JBool a, JBool b => Bool.eqb a b
  | JBool a, JNum n => n =? (if a then 1 else 0)
  | JNum n, JBool a => n =? (if a then 1 else 0)
  | JNum n, JNum m => n =? m
  | JStr s, JStr t => String.eqb s t
  | JArr l, JArr r =>
      (fix go (l r : list json) {struct l} : bool :=
         match l, r with
         | [], [] => true
         | a :: l', b :: r' => eqb a b && go l' r'
         | _, _ => false
         end) l r
  | JObj l, JObj r =>
      (List.length l =? List.length r)%nat &&
      (fix go (l : list (string * json)) {struct l} : bool :=
         match l with
         | [] => true
         | (k, v) :: l' =>
             match assoc k r with
             | Some w => eqb v w
             | None => false
             end && go l'
         end) l
  | _, _ => false
  end.

(** [for v in x]: the items a loop over [x] visits. *)
Definition iter (x : json) : res (list json) :=
  match x with
  | JArr l => Ret l
  | JObj kvs => Ret (map (fun kv => JStr (fst kv)) kvs)
  | JStr s => Ret (map (fun c => JStr (String c EmptyString)) (list_ascii_of_string s))
  | _ => Raise TypeError
  end.

(** [len(x)]: only strings, lists and dicts have a length. *)
Definition len (x : json) : res Z :=
  match x with
  | JStr s => Ret (Z.of_nat (String.length s))
  | JArr l => Ret (Z.of_nat (List.length l))
  | JObj kvs => Ret (Z.of_nat (List.length kvs))
  | _ => Raise TypeError
  end.

(** [str(x)] as an f-string interpolates it, for the values that can name
    a file. *)
Definition str (x : json) : string :=
  match x with
  | JNull => "None"
  | JBool true => "True"
  | JBool false => "False"
  | JNum n => pretty n
  | JStr s => s
  | JArr _ => "[...]"
  | JObj _ => "{...}"
  end.

(** Hashable values as dictionary keys.  [True] and [1] are the same key. *)
Inductive key : Type :=
| KNone
| KInt (n : Z)
| KStr (s : string).

Definition hash_key (x : json) : res key :=
  match x with
  | JNull => Ret KNone
  | JBool b => Ret (KInt (if b then 1 else 0))
  | JNum n => Ret (KInt n)
  | JStr s => Ret (KStr s)
  | JArr _ | JObj _ => Raise TypeError
  end.

#[global] Instance key_eq_dec : EqDecision key.
Proof. solve_decision. Defined.

#[global] Instance key_countable : Countable key.
Proof.
  refine (inj_countable'
    (fun k => match k with
              | KNone => inl ()
              | KInt n => inr (inl n)
              | KStr s => inr (inr s)
              end)
    (fun c => match c with
              | inl _ => KNone
              | inr (inl n) => KInt n
              | inr (inr s) => KStr s
              end) _).
  by intros [].
Defined.

(** [str.capitalize]: first character upper-cased, the rest lower-cased.
    Only the ASCII letters change case: this is [str.capitalize] on ASCII
    strings, and differs from it on others (Python follows Unicode). *)
Definition upper (c : ascii) : ascii :=
  let n := nat_of_ascii c in
  if ((97 <=? n) && (n <=? 122))%nat then ascii_of_nat (n - 32) else c.

Definition lower (c : ascii) : ascii :=
  let n := nat_of_ascii c in
  if ((65 <=? n) && (n <=? 90))%nat then ascii_of_nat (n + 32) else c.

Fixpoint map_string (f : ascii -> ascii) (s : string) : string :=
  match s with
  | EmptyString => EmptyString
  | String c s' => String (f c) (map_string f s')
  end.

Definition capitalize (s : string) : string :=
  match s with
  | EmptyString => EmptyString
  | String c s' => String (upper c) (map_string lower s')
  end.

(** [s.split('_')] *)
Fixpoint split_underscore (s : string) : list string :=
  match s with
  | EmptyString => [EmptyString]
  | String c s' =>
      if Ascii.eqb c "_"%char then EmptyString :: split_underscore s'
      else match split_underscore s' with
           | [] => [String c EmptyString]
           | w :: ws => String c w :: ws
           end
  end.

Definition join (ws : list string) : string :=
  fold_right String.append EmptyString ws.

End Py.

(** ** The distance sensor's frame parser
    ([drivers/dfrobot_ult_driver.py], [DfrobotUltDriver.read]) *)

Module DfrobotUlt.

Definition byte_val (b : byte) : Z := Z.of_N (Byte.to_N b).

(** [sum(buffer[0:3]) & 0xFF] *)
Definition checksum (b0 b1 b2 : byte) : Z :=
  Z.land (byte_val b0 + byte_val b1 + byte_val b2) 255.

(** [(buffer[1] << 8) | buffer[2]] *)
Definition distance_mm (b1 b2 : byte) : Z :=
  Z.lor (Z.shiftl (byte_val b1) 8) (byte_val b2).

(** [round(distance_mm / 10.0, 1)]: a whole number of millimetres has at
    most one decimal in centimetres, so the value is [mm / 10] itself. *)
Definition distance_cm (mm : Z) : Qc := Q2Qc (Qmake mm 10).

(** The inner [while len(buffer) >= 4] loop.  It ends either on a frame
    ([inl], the function returns) or with fewer than four bytes left in
    the buffer ([inr]). *)
Fixpoint scan (buffer : list byte) : Qc + list byte :=
  match buffer with
  | b0 :: ((b1 :: b2 :: b3 :: _) as rest) =>
      if byte_val b0 =? 255 then
        if checksum b0 b1 b2 =? byte_val b3 then
          inl (distance_cm (distance_mm b1 b2))
        else scan rest
      else scan rest
  | _ => inr buffer
  end.

(** What one [ser.read(...)] gives within the three-second window. *)
Inductive serial_read : Type :=
| Chunk (bs : list byte)
| SerialError.

(** The outer [while time.time() - start_time < 3] loop over the reads
    that start before the deadline; [None] is the function's [None]
    (time-out, or the serial error caught below the loop). *)
Fixpoint read_loop (buffer : list byte) (reads : list serial_read) : option Qc :=
  match reads with
  | [] => None
  | SerialError :: _ => None
  | Chunk bs :: reads' =>
      match scan (buffer ++ bs) with
      | inl d => Some d
      | inr buffer' => read_loop buffer' reads'
      end
  end.

(** [read(config)]: [line] is what opening the port gives, [None] when
    [serial.Serial(...)] raises.  The result is the value of the
    ['distance_cm'] entry of the returned dict. *)
Definition read (config : json) (line : option (list serial_read)) : res (option Qc) :=
  match Py.get config "port" with
  | Raise e => Raise e
  | Ret port =>
      match Py.get_default config "baudrate" (JNum 9600) with
      | Raise e => Raise e
      | Ret _ =>
          if negb (Py.truthy port) then Ret None
          else match line with
               | None => Ret None
               | Some reads => Ret (read_loop [] reads)
               end
      end
  end.

(** The five bytes of the specification's example. *)
Definition example_stream : list byte := [x01; xff; x01; x2c; x2c].

End DfrobotUlt.


(** ** The outside world *)

(** The connectivity states, in the order of the source's string literals
    ["BAŞLATILIYOR"], ["YAPILANDIRILIYOR"], ["ÇEVRİMİÇİ"], ["ÇEVRİMDIŞI"]. *)
Inductive conn_state : Type :=
| INITIALIZING
| CONFIGURING
| ONLINE
| OFFLINE.

#[global] Instance conn_state_eq_dec : EqDecision conn_state.
Proof. solve_decision. Defined.

(** The HTTP calls of the agent, by endpoint. *)
Inductive request (Reading : Type) : Type :=
| GetConfig                                       (* GET  /config/<device> *)
| PostReading (sensor : json) (value : Reading)   (* POST /submit-reading *)
| GetCommands                                     (* GET  /commands/<device> *)
| PostStatus (command_id : json) (status : string). (* POST /commands/<id>/<status> *)
Arguments GetConfig {Reading}.
Arguments PostReading {Reading} sensor value.
Arguments GetCommands {Reading}.
Arguments PostStatus {Reading} command_id status.

(** What [response.json()] gives: the decoded body, or the exception it
    raises on a body that is not JSON. *)
Inductive body : Type :=
| BodyJson (j : json)
| BodyInvalid (e : exn).

(** What [requests.get] / [requests.post] gives: a response, or a
    [RequestException] (connection error, time-out). *)
Inductive http_reply : Type :=
| NoReply
| Reply (status_code : Z) (b : body).

(** [response.raise_for_status()] raises [HTTPError] on 4xx and 5xx. *)
Definition is_http_error (status_code : Z) : bool :=
  (400 <=? status_code) && (status_code <? 600).

(** What [driver.read(config)] gives. *)
Inductive read_result (Reading : Type) : Type :=
| ReadValue (r : Reading)
| ReadNone
| ReadRaise (e : exn).
Arguments ReadValue {Reading} r.
Arguments ReadNone {Reading}.
Arguments ReadRaise {Reading} e.

Class Host : Type := {
  World : Type;
  PyModule : Type;
  DriverClass : Type;
  Driver : Type;
  Reading : Type;
  (** [time.time()] *)
  time_time : World -> World * Z;
  (** [time.sleep(seconds)] *)
  time_sleep : World -> Z -> World;
  (** [requests.get(...)] / [requests.post(...)] *)
  http : World -> request Reading -> World * http_reply;
  (** [spec_from_file_location], [module_from_spec], [exec_module] on
      [drivers/<stem>_driver.py]; [None] when one of them raises. *)
  exec_module : World -> string -> World * option PyModule;
  (** [getattr(module, class_name)]; [None] for [AttributeError]. *)
  getattr : PyModule -> string -> option DriverClass;
  (** [driver_class()]; [None] when the constructor raises. *)
  construct : World -> DriverClass -> World * option Driver;
  (** [driver.read(config)] *)
  driver_read : World -> Driver -> json -> World * read_result Reading;
  (** [uploads_dir.mkdir(exist_ok=True)] and the file name of the shot. *)
  prepare_upload : World -> World * res unit;
  (** The [try] block of [capture_image]: ffmpeg, read the file, upload,
      remove.  [Ret true] when it runs through, [Ret false] when
      [CalledProcessError] or [RequestException] is caught, [Raise] for
      anything else. *)
  grab_and_upload : World -> json -> json -> World * res bool;
}.

(** ** The weather driver
    ([drivers/openweather_driver.py], [OpenweatherDriver.read])

    The numbers of a JSON value are integers here; on an integer
    [round(x, 2)] is the integer itself. *)

Module Openweather.

(** The three values the driver puts into the URL of its request. *)
Record query : Type := mkQuery {
  q_lat : json;
  q_lon : json;
  q_appid : json;
}.

(** [p in s] on strings. *)
Fixpoint has_substring (p s : string) : bool :=
  String.prefix p s ||
  match s with
  | EmptyString => false
  | String _ s' => has_substring p s'
  end.

(** ['main' in data]: a key of a dict, an item of a list, a part of a
    string; nothing else is a container. *)
Definition contains_main (data : json) : res bool :=
  match data with
  | JObj kvs => Ret (match Py.assoc "main" kvs with Some _ => true | None => false end)
  | JArr l => Ret (existsb (fun x => Py.eqb x (JStr "main")) l)
  | JStr s => Ret (has_substring "main" s)
  | _ => Raise TypeError
  end.

(** [round(x, 2)] *)
Definition round_2 (x : json) : res json :=
  match x with
  | JNum n => Ret (JNum n)
  | JBool b => Ret (JNum (if b then 1 else 0))
  | _ => Raise TypeError
  end.

Definition and_then {A B} (r : res A) (k : A -> res B) : res B :=
  match r with
  | Ret a => k a
  | Raise e => Raise e
  end.

(** [round(data['main'][field], 2)] *)
Definition main_field (data : json) (field : string) : res json :=
  and_then (Py.item data "main") (fun main =>
  and_then (Py.item main field) round_2).

(** The [if 'main' in data] statement. *)
Definition parse (data : json) : res (option json) :=
  and_then (contains_main data) (fun has_main =>
  if has_main then
    and_then (main_field data "temp") (fun temp =>
    and_then (main_field data "humidity") (fun humidity =>
    Ret (Some (JObj [("temperature", temp); ("humidity", humidity)]))))
  else Ret None).

(** The body of the [try] statement, from the reply to the request on. *)
Definition handle (r : http_reply) : res (option json) :=
  match r with
  | NoReply => Raise RequestException
  | Reply code b =>
      if is_http_error code then Raise RequestException
      else match b with
           | BodyJson data => parse data
           | BodyInvalid e => Raise e
           end
  end.

(** [read(config)]: [get] is what [requests.get] gives for a query.  The
    result is the list of the requests made and what [read] returns or
    raises. *)
Definition read (config : json) (get : query -> http_reply) : list query * res (option json) :=
  match Py.get config "apikey", Py.get config "lat", Py.get config "lon" with
  | Ret api_key, Ret lat, Ret lon =>
      if negb (forallb Py.truthy [api_key; lat; lon]) then ([], Ret None)
      else
        let q := mkQuery lat lon api_key in
        ([q], match handle (get q) with
              | Raise e => if is_request_exception e then Ret None else Raise e
              | Ret r => Ret r
              end)
  | Raise e, _, _ | _, Raise e, _ | _, _, Raise e => ([], Raise e)
  end.

End Openweather.

(** ** The agent *)

Section agent.
Context {H : Host}.

(** The attributes of [self] that change after [__init__]. *)
Record Agent : Type := mkAgent {
  state : conn_state;
  config : json;                             (* [None] is [JNull] *)
  driver_instances : gmap Py.key Driver;
  last_read_times : gmap Py.key Z;
  global_read_frequency_seconds : json;
}.

(** [Agent.__init__] *)
Definition Agent_init : Agent :=
  {| state := INITIALIZING;
     config := JNull;
     driver_instances := ∅;
     last_read_times := ∅;
     global_read_frequency_seconds := JNum 0 |}.

Record machine : Type := mkMachine {
  self : Agent;
  world : World;
}.

(** What the agent does that can be seen from outside, in order.  The
    events of a sampling pass carry the [sensor_config] the loop is at. *)
Inductive event : Type :=
| EvStateChange (s : conn_state)                 (* the line [_set_state] prints *)
| EvHttp (rq : request Reading) (r : http_reply) (* a [requests] call *)
| EvReadStart (sensor : json)                    (* a read attempt begins *)
| EvResolve (sensor : json) (driver_name : json) (* [load_driver] is called *)
| EvExecModule (stem : string)                   (* a driver file is loaded *)
| EvConstruct (k : Py.key) (d : Driver)          (* [driver_class()] returned [d] *)
| EvDriverRead (sensor : json) (d : Driver) (cfg : json) (* [driver.read] is called *)
| EvCapture (camera : json).                     (* the capture is started *)

Record out (A : Type) : Type := mkOut {
  value : res A;
  after : machine;
  events : list event;
}.
Arguments mkOut {A} value after events.
Arguments value {A} o.
Arguments after {A} o.
Arguments events {A} o.

Definition M (A : Type) : Type := machine -> out A.

Definition ret {A} (a : A) : M A := fun m => mkOut (Ret a) m [].

Definition raise {A} (e : exn) : M A := fun m => mkOut (Raise e) m [].

Definition bind {A B} (c : M A) (k : A -> M B) : M B :=
  fun m =>
    match c m with
    | mkOut (Ret a) m1 e1 =>
        match k a m1 with
        | mkOut v m2 e2 => mkOut v m2 (e1 ++ e2)
        end
    | mkOut (Raise e) m1 e1 => mkOut (Raise e) m1 e1
    end.

(** [try: c  except <class>: h]; [catches] says which exceptions the
    clause takes. *)
Definition try_except {A} (c : M A) (catches : exn -> bool) (h : M A) : M A :=
  fun m =>
    match c m with
    | mkOut (Ret a) m1 e1 => mkOut (Ret a) m1 e1
    | mkOut (Raise e) m1 e1 =>
        if catches e then
          match h m1 with
          | mkOut v m2 e2 => mkOut v m2 (e1 ++ e2)
          end
        else mkOut (Raise e) m1 e1
    end.

Definition any_exception (e : exn) : bool := true.

Definition lift {A} (r : res A) : M A :=
  match r with Ret a => ret a | Raise e => raise e end.

Definition emit (e : event) : M unit := fun m => mkOut (Ret tt) m [e].

Definition get_self : M Agent := fun m => mkOut (Ret (self m)) m [].

Definition modify_self (f : Agent -> Agent) : M unit :=
  fun m => mkOut (Ret tt) (mkMachine (f (self m)) (world m)) [].

(** A call into the host. *)
Definition call {A} (f : World -> World * A) : M A :=
  fun m => let (w, a) := f (world m) in mkOut (Ret a) (mkMachine (self m) w) [].

End agent.

Arguments mkOut {H A} value after events.
Arguments value {H A} o.
Arguments after {H A} o.
Arguments events {H A} o.

Notation "'let*' x ':=' c 'in' k" := (bind c (fun x => k))
  (at level 10, x name, c at level 100, k at level 200).
Notation "c ';;' k" := (bind c (fun _ => k))
  (at level 100, k at level 200, right associativity).

Section methods.
Context {H : Host}.

Definition set_state_field (s : conn_state) (a : Agent) : Agent :=
  {| state := s;
     config := config a;
     driver_instances := driver_instances a;
     last_read_times := last_read_times a;
     global_read_frequency_seconds := global_read_frequency_seconds a |}.

Definition set_config (j : json) (a : Agent) : Agent :=
  {| state := state a;
     config := j;
     driver_instances := driver_instances a;
     last_read_times := last_read_times a;
     global_read_frequency_seconds := global_read_frequency_seconds a |}.

Definition set_global_read_frequency_seconds (g : json) (a : Agent) : Agent :=
  {| state := state a;
     config := config a;
     driver_instances := driver_instances a;
     last_read_times := last_read_times a;
     global_read_frequency_seconds := g |}.

Definition set_driver_instance (k : Py.key) (d : Driver) (a : Agent) : Agent :=
  {| state := state a;
     config := config a;
     driver_instances := <[k := d]> (driver_instances a);
     last_read_times := last_read_times a;
     global_read_frequency_seconds := global_read_frequency_seconds a |}.

Definition set_last_read_time (k : Py.key) (t : Z) (a : Agent) : Agent :=
  {| state := state a;
     config := config a;
     driver_instances := driver_instances a;
     last_read_times := <[k := t]> (last_read_times a);
     global_read_frequency_seconds := global_read_frequency_seconds a |}.

(** [Agent._set_state] *)
Definition _set_state (new_state : conn_state) : M unit :=
  let* a := get_self in
  if decide (state a = new_state) then ret tt
  else modify_self (set_state_field new_state) ;; emit (EvStateChange new_state).

(** A [requests] call; a missing reply is the [RequestException] it
    raises. *)
Definition request_ (rq : request Reading) : M http_reply :=
  let* r := call (fun w => http w rq) in
  emit (EvHttp rq r) ;;
  match r with
  | NoReply => raise RequestException
  | Reply _ _ => ret r
  end.

(** [response.raise_for_status()] *)
Definition raise_for_status (r : http_reply) : M unit :=
  match r with
  | NoReply => raise RequestException
  | Reply code _ => if is_http_error code then raise RequestException else ret tt
  end.

(** [response.json()] *)
Definition response_json (r : http_reply) : M json :=
  match r with
  | NoReply => raise RequestException
  | Reply _ (BodyJson j) => ret j
  | Reply _ (BodyInvalid e) => raise e
  end.

(** [Agent.fetch_config] *)
Definition fetch_config : M unit :=
  _set_state CONFIGURING ;;
  try_except
    (let* response := request_ GetConfig in
     raise_for_status response ;;
     let* j := response_json response in
     modify_self (set_config j) ;;
     let* g := lift (Py.get_default j "global_read_frequency_seconds" (JNum 0)) in
     modify_self (set_global_read_frequency_seconds g) ;;
     let* sensors := lift (Py.item j "sensors") in
     let* _ := lift (Py.len sensors) in
     let* cameras := lift (Py.item j "cameras") in
     let* _ := lift (Py.len cameras) in
     _set_state ONLINE)
    is_request_exception
    (_set_state OFFLINE).

(** [Agent.get_effective_frequency] *)
Definition get_effective_frequency (sensor_config : json) : M json :=
  let* a := get_self in
  let* g := lift (Py.as_num (global_read_frequency_seconds a)) in
  if 0 <? g then ret (global_read_frequency_seconds a)
  else lift (Py.get_default sensor_config "read_frequency" (JNum 300)).

(** The class name [load_driver] derives from a driver name. *)
Definition class_name (driver_name : string) : string :=
  (Py.join (map Py.capitalize (Py.split_underscore driver_name)) ++ "Driver")%string.

(** [Agent.load_driver] *)
Definition load_driver (driver_name : json) : M (option Driver) :=
  let* k := lift (Py.hash_key driver_name) in
  let* a := get_self in
  match driver_instances a !! k with
  | Some d => ret (Some d)
  | None =>
      emit (EvExecModule (Py.str driver_name)) ;;
      let* module := call (fun w => exec_module w (Py.str driver_name)) in
      match module, driver_name with
      | Some module, JStr name =>
          match getattr module (class_name name) with
          | Some driver_class =>
              let* instance := call (fun w => construct w driver_class) in
              match instance with
              | Some instance =>
                  emit (EvConstruct k instance) ;;
                  modify_self (set_driver_instance k instance) ;;
                  ret (Some instance)
              | None => ret None
              end
          | None => ret None
          end
      | _, _ => ret None
      end
  end.

(** [Agent.send_reading] *)
Definition send_reading (sensor : json) (value : Reading) : M unit :=
  try_except
    (let* response := request_ (PostReading sensor value) in
     raise_for_status response)
    is_request_exception
    (_set_state OFFLINE).

(** The condition of the list comprehension in [process_sensors]:
    [s.get('is_active') and s.get('interface') != 'virtual']. *)
Definition is_candidate (s : json) : res bool :=
  match Py.get s "is_active" with
  | Raise e => Raise e
  | Ret active =>
      if Py.truthy active then
        match Py.get s "interface" with
        | Raise e => Raise e
        | Ret interface => Ret (negb (Py.eqb interface (JStr "virtual")))
        end
      else Ret false
  end.

(** The list comprehension itself. *)
Fixpoint active_sensors (sensors : list json) : res (list json) :=
  match sensors with
  | [] => Ret []
  | s :: rest =>
      match is_candidate s with
      | Raise e => Raise e
      | Ret keep =>
          match active_sensors rest with
          | Raise e => Raise e
          | Ret l => Ret (if keep then s :: l else l)
          end
      end
  end.

(** A [for] loop. *)
Fixpoint for_each {A} (l : list A) (body : A -> M unit) : M unit :=
  match l with
  | [] => ret tt
  | x :: rest => body x ;; for_each rest body
  end.

(** [sensor_config['parser_config']['driver']] *)
Definition driver_name_of (sensor_config : json) : M json :=
  let* parser_config := lift (Py.item sensor_config "parser_config") in
  lift (Py.item parser_config "driver").

(** The [try] block of the loop body of [process_sensors], lines 116-125.
    An instance of a driver class is truthy, so [if not driver] is the
    test for [None]. *)
Definition read_and_send (sensor_config id : json) : M unit :=
  let* driver_name := driver_name_of sensor_config in
  emit (EvResolve sensor_config driver_name) ;;
  let* driver := load_driver driver_name in
  match driver with
  | None => ret tt                                   (* [continue] *)
  | Some driver =>
      let* cfg := lift (Py.item sensor_config "config") in
      emit (EvDriverRead sensor_config driver cfg) ;;
      let* reading := call (fun w => driver_read w driver cfg) in
      match reading with
      | ReadValue r => send_reading id r
      | ReadNone => ret tt
      | ReadRaise e => raise e
      end
  end.

(** The [try] statement: the handler formats the driver name again. *)
Definition attempt_read (sensor_config id : json) : M unit :=
  try_except (read_and_send sensor_config id) any_exception
    (let* _ := driver_name_of sensor_config in ret tt).

(** The body of the [for] loop of [process_sensors]. *)
Definition process_sensor (now : Z) (sensor_config : json) : M unit :=
  let* id := lift (Py.item sensor_config "id") in
  let* k := lift (Py.hash_key id) in
  let* a := get_self in
  let last_read := default 0 (last_read_times a !! k) in
  let* read_frequency := get_effective_frequency sensor_config in
  let* f := lift (Py.as_num read_frequency) in
  if f <=? now - last_read then
    let* _ := lift (Py.item sensor_config "name") in
    emit (EvReadStart sensor_config) ;;
    modify_self (set_last_read_time k now) ;;
    attempt_read sensor_config id
  else ret tt.

(** [process_sensors] from [now = time.time()] on. *)
Definition process_sensors_at (now : Z) : M unit :=
  let* a := get_self in
  let* sensors := lift (Py.get_default (config a) "sensors" (JArr [])) in
  let* sensors := lift (Py.iter sensors) in
  let* active := lift (active_sensors sensors) in
  for_each active (process_sensor now).

(** [Agent.process_sensors] *)
Definition process_sensors : M unit :=
  let* a := get_self in
  if negb (bool_decide (state a = ONLINE)) || negb (Py.truthy (config a)) then ret tt
  else
    let* now := call time_time in
    process_sensors_at now.

(** [Agent.update_command_status] *)
Definition update_command_status (command_id : json) (status : string) : M unit :=
  try_except
    (let* _ := request_ (PostStatus command_id status) in ret tt)
    is_request_exception
    (ret tt).

(** [next((c for c in cameras if c['id'] == camera_id), None)] *)
Fixpoint find_camera (cameras : list json) (camera_id : json) : res (option json) :=
  match cameras with
  | [] => Ret None
  | c :: rest =>
      match Py.item c "id" with
      | Raise e => Raise e
      | Ret i => if Py.eqb i camera_id then Ret (Some c) else find_camera rest camera_id
      end
  end.

(** [Agent.capture_image] *)
Definition capture_image (camera_id : json) : M bool :=
  let* a := get_self in
  let* cameras := lift (Py.get_default (config a) "cameras" (JArr [])) in
  let* cameras := lift (Py.iter cameras) in
  let* camera_config := lift (find_camera cameras camera_id) in
  match camera_config with
  | None => ret false
  | Some camera_config =>
      if negb (Py.truthy camera_config) then ret false
      else
        let* rtsp_url := lift (Py.get camera_config "rtsp_url") in
        if negb (Py.truthy rtsp_url) then ret false
        else
          let* r := call prepare_upload in
          lift r ;;
          let* _ := lift (Py.item camera_config "name") in
          emit (EvCapture camera_config) ;;
          let* r := call (fun w => grab_and_upload w camera_config camera_id) in
          lift r
  end.

(** [Agent.analyze_snow_depth] *)
Definition analyze_snow_depth (camera_id virtual_sensor_id : json) : M bool :=
  ret true.

Definition status_of (success : bool) : string :=
  if success then "completed" else "failed".

(** The [if]/[elif] chain of [execute_command], lines 180-183; the
    result is the value [success] has after it. *)
Definition dispatch (command : json) : M bool :=
  let* command_type := lift (Py.item command "command_type") in
  if Py.eqb command_type (JStr "CAPTURE_IMAGE") then
    let* payload := lift (Py.item command "payload") in
    let* camera_id := lift (Py.item payload "camera_id") in
    capture_image camera_id
  else
    let* command_type := lift (Py.item command "command_type") in
    if Py.eqb command_type (JStr "ANALYZE_SNOW_DEPTH") then
      let* payload := lift (Py.item command "payload") in
      let* camera_id := lift (Py.item payload "camera_id") in
      let* payload := lift (Py.item command "payload") in
      let* virtual_sensor_id := lift (Py.item payload "virtual_sensor_id") in
      analyze_snow_depth camera_id virtual_sensor_id
    else ret false.

(** [Agent.execute_command] *)
Definition execute_command (command : json) : M unit :=
  let* _ := lift (Py.item command "command_type") in
  let* _ := lift (Py.item command "id") in
  try_except
    (let* success := dispatch command in
     let* id := lift (Py.item command "id") in
     update_command_status id (status_of success))
    any_exception
    (let* id := lift (Py.item command "id") in
     update_command_status id "failed").

(** [Agent.check_for_commands] *)
Definition check_for_commands : M unit :=
  let* a := get_self in
  if negb (bool_decide (state a = ONLINE)) then ret tt
  else
    try_except
      (let* response := request_ GetCommands in
       match response with
       | Reply 200 _ =>
           let* commands := response_json response in
           if Py.truthy commands then
             let* _ := lift (Py.len commands) in
             let* commands := lift (Py.iter commands) in
             for_each commands execute_command
           else ret tt
       | _ => ret tt
       end)
      is_request_exception
      (ret tt).

(** The poll intervals of the main loop. *)
Definition CONFIG_POLL_INTERVAL : Z := 60.
Definition SENSOR_READ_INTERVAL : Z := 1.
Definition COMMAND_POLL_INTERVAL : Z := 5.

(** The body of [while True] in [start], run [n] times. *)
Fixpoint main_loop (n : nat) (last_config_fetch last_command_check : Z) : M unit :=
  match n with
  | O => ret tt
  | S n' =>
      let* t := call time_time in
      let* last_config_fetch :=
        if CONFIG_POLL_INTERVAL <=? t - last_config_fetch
        then fetch_config ;; call time_time
        else ret last_config_fetch in
      let* t := call time_time in
      let* last_command_check :=
        if COMMAND_POLL_INTERVAL <=? t - last_command_check
        then check_for_commands ;; call time_time
        else ret last_command_check in
      process_sensors ;;
      call (fun w => (time_sleep w SENSOR_READ_INTERVAL, tt)) ;;
      main_loop n' last_config_fetch last_command_check
  end.

(** [Agent.start], stopped after [n] rounds of the loop; an exception
    that reaches it ends the run ([shutdown] only prints). *)
Definition start (n : nat) : M unit :=
  try_except
    (fetch_config ;;
     let* last_config_fetch := call time_time in
     let* last_command_check := call time_time in
     main_loop n last_config_fetch last_command_check)
    any_exception
    (ret tt).

(** The three activities the loop interleaves, and a run as a sequence
    of them; a raised exception ends the run. *)
Inductive activity : Type :=
| ConfigFetch
| CommandPoll
| SensorPass.

Definition perform (a : activity) : M unit :=
  match a with
  | ConfigFetch => fetch_config
  | CommandPoll => check_for_commands
  | SensorPass => process_sensors
  end.

Definition perform_all (l : list activity) : M unit := for_each l perform.

End methods.

(** ** A scripted host

    A host whose answers are read off a script: used to run the agent on
    concrete inputs. *)

Module Scripted.

Record script : Type := mkScript {
  clock : Z;                       (* what [time.time()] returns next *)
  tick : Z;                        (* how far each reading of the clock moves it *)
  config_reply : http_reply;
  reading_reply : http_reply;
  commands_reply : http_reply;
  status_reply : http_reply;
  driver_files : list string;      (* the driver files that load *)
  sensor_value : read_result Z;    (* what every driver reads *)
}.

Definition advance (d : Z) (w : script) : script :=
  {| clock := clock w + d;
     tick := tick w;
     config_reply := config_reply w;
     reading_reply := reading_reply w;
     commands_reply := commands_reply w;
     status_reply := status_reply w;
     driver_files := driver_files w;
     sensor_value := sensor_value w |}.

Definition answer (w : script) (rq : request Z) : http_reply :=
  match rq with
  | GetConfig => config_reply w
  | PostReading _ _ => reading_reply w
  | GetCommands => commands_reply w
  | PostStatus _ _ => status_reply w
  end.

#[local] Instance host : Host := {|
  World := script;
  PyModule := string;
  DriverClass := string;
  Driver := string;
  Reading := Z;
  time_time w := (advance (tick w) w, clock w);
  time_sleep w d := advance d w;
  http w rq := (w, answer w rq);
  exec_module w stem :=
    (w, if bool_decide (stem ∈ driver_files w) then Some stem else None);
  getattr module name :=
    if String.eqb name (class_name module) then Some name else None;
  construct w driver_class := (w, Some driver_class);
  driver_read w driver cfg := (w, sensor_value w);
  prepare_upload w := (w, Ret tt);
  grab_and_upload w camera_config camera_id := (w, Ret true);
|}.

(** A server that answers every call with 200 and an empty JSON object,
    one loadable driver, a clock at 1000 seconds. *)
Definition quiet : script :=
  {| clock := 1000;
     tick := 0;
     config_reply := Reply 200 (BodyJson (JObj []));
     reading_reply := Reply 200 (BodyJson (JObj []));
     commands_reply := Reply 200 (BodyJson (JArr []));
     status_reply := Reply 200 (BodyJson (JObj []));
     driver_files := ["dfrobot_ult"];
     sensor_value := ReadValue 300 |}.

Definition with_config_reply (r : http_reply) (w : script) : script :=
  {| clock := clock w;
     tick := tick w;
     config_reply := r;
     reading_reply := reading_reply w;
     commands_reply := commands_reply w;
     status_reply := status_reply w;
     driver_files := driver_files w;
     sensor_value := sensor_value w |}.

Definition with_reading_reply (r : http_reply) (w : script) : script :=
  {| clock := clock w;
     tick := tick w;
     config_reply := config_reply w;
     reading_reply := r;
     commands_reply := commands_reply w;
     status_reply := status_reply w;
     driver_files := driver_files w;
     sensor_value := sensor_value w |}.

Definition with_tick (d : Z) (w : script) : script :=
  {| clock := clock w;
     tick := d;
     config_reply := config_reply w;
     reading_reply := reading_reply w;
     commands_reply := commands_reply w;
     status_reply := status_reply w;
     driver_files := driver_files w;
     sensor_value := sensor_value w |}.

(** A distance sensor read every [frequency] seconds through the
    [dfrobot_ult] driver. *)
Definition lidar (id : Z) (frequency : Z) : json :=
  JObj [("id", JNum id); ("name", JStr "lidar"); ("interface", JStr "serial");
        ("is_active", JBool true); ("read_frequency", JNum frequency);
        ("parser_config", JObj [("driver", JStr "dfrobot_ult")]);
        ("config", JObj [("port", JStr "/dev/ttyUSB0")])].

Definition one_sensor_config (sensor : json) : json :=
  JObj [("sensors", JArr [sensor]); ("cameras", JArr [])].

(** An agent that is online with the configuration [cfg]. *)
Definition online_with (cfg : json) : Agent :=
  set_state_field ONLINE (set_config cfg Agent_init).

Definition serving (cfg : json) : script :=
  with_config_reply (Reply 200 (BodyJson cfg)) quiet.

(** The sample configuration: one distance sensor, id 1, every 60 s. *)
Definition sample_sensor : json := lidar 1 60.
Definition sample_config : json := one_sensor_config sample_sensor.

(** A sensor that is switched off. *)
Definition idle_sensor : json :=
  JObj [("id", JNum 2); ("name", JStr "spare"); ("interface", JStr "serial");
        ("is_active", JBool false);
        ("parser_config", JObj [("driver", JStr "dfrobot_ult")]);
        ("config", JObj [])].

Definition online (cfg : json) (w : script) : machine :=
  mkMachine (online_with cfg) w.

Definition fresh (w : script) : machine := mkMachine Agent_init w.

(** Commands: one of no known kind, and a capture that lacks its payload. *)
Definition reboot_command : json :=
  JObj [("id", JNum 7); ("command_type", JStr "REBOOT")].
Definition broken_capture : json :=
  JObj [("id", JNum 8); ("command_type", JStr "CAPTURE_IMAGE")].

(** A second distance sensor, read every 5000 s, and the configuration
    with both sensors. *)
Definition slow_sensor : json := lidar 4 5000.
Definition two_sensor_config : json :=
  JObj [("sensors", JArr [sample_sensor; slow_sensor]); ("cameras", JArr [])].

(** An agent whose cache holds the distance driver. *)
Definition lidar_driver : string := "DfrobotUltDriver".
Definition with_lidar_driver (a : Agent) : Agent :=
  set_driver_instance (Py.KStr "dfrobot_ult") lidar_driver a.

(** A depth analysis with its payload, and a command without a type. *)
Definition analysis_command : json :=
  JObj [("id", JNum 9); ("command_type", JStr "ANALYZE_SNOW_DEPTH");
        ("payload", JObj [("camera_id", JNum 1); ("virtual_sensor_id", JNum 5)])].
Definition untyped_command : json := JObj [("id", JNum 10)].

Definition with_commands_reply (r : http_reply) (w : script) : script :=
  {| clock := clock w;
     tick := tick w;
     config_reply := config_reply w;
     reading_reply := reading_reply w;
     commands_reply := r;
     status_reply := status_reply w;
     driver_files := driver_files w;
     sensor_value := sensor_value w |}.

(** A server with the commands [cmds] pending. *)
Definition commanding (cmds : list json) : script :=
  with_commands_reply (Reply 200 (BodyJson (JArr cmds))) quiet.

(** An active sensor that names no driver. *)
Definition driverless_sensor : json :=
  JObj [("id", JNum 3); ("name", JStr "bare"); ("interface", JStr "serial");
        ("is_active", JBool true); ("read_frequency", JNum 60)].

(** Weather at a position on the equator, and a weather service whose
    answer has no temperature. *)
Definition equator_config : json :=
  JObj [("apikey", JStr "key"); ("lat", JNum 0); ("lon", JNum 29)].
Definition north_config : json :=
  JObj [("apikey", JStr "key"); ("lat", JNum 41); ("lon", JNum 29)].
Definition humidity_only (q : Openweather.query) : http_reply :=
  Reply 200 (BodyJson (JObj [("main", JObj [("humidity", JNum 40)])])).

End Scripted.

(** * Properties *)

(** ** The vocabulary of the statements *)

Section vocabulary.
Context {H : Host}.

(** A relation between the machine before, the machine after and the
    events in between, closed under doing nothing and under sequencing. *)
Class Composable (R : machine -> machine -> list event -> Prop) : Prop := {
  comp_refl : forall m, R m m [];
  comp_trans : forall m1 m2 m3 e1 e2,
    R m1 m2 e1 -> R m2 m3 e2 -> R m1 m3 (e1 ++ e2)%list;
}.

(** Every run of [c] is in the relation [R]. *)
Definition respects {A} (R : machine -> machine -> list event -> Prop) (c : M A) : Prop :=
  forall m, R m (after (c m)) (events (c m)).

(** The relation "every event satisfies [P]". *)
Definition all_events (P : event -> Prop) : machine -> machine -> list event -> Prop :=
  fun _ _ evs => Forall P evs.

(** A call of [POST /commands/<id>/<status>]. *)
Definition is_status_report (e : event) : bool :=
  match e with
  | EvHttp (PostStatus _ _) _ => true
  | _ => false
  end.

(** The replies on which the [try] block of [fetch_config] ends in a
    [RequestException]: no reply at all, a 4xx or 5xx status, or a body
    on which [response.json()] raises one. *)
Definition request_failure (r : http_reply) : bool :=
  match r with
  | NoReply => true
  | Reply code b =>
      is_http_error code ||
      match b with
      | BodyJson _ => false
      | BodyInvalid e => is_request_exception e
      end
  end.

(** A relation that looks at the attributes of [self] and at the events,
    not at the host's world. *)
Definition on_self (Q : Agent -> Agent -> list event -> Prop)
  : machine -> machine -> list event -> Prop :=
  fun m m' evs => Q (self m) (self m') evs.

(** The same closure conditions, for a relation on the attributes. *)
Class ComposableSelf (Q : Agent -> Agent -> list event -> Prop) : Prop := {
  self_refl : forall a, Q a a [];
  self_trans : forall a1 a2 a3 e1 e2,
    Q a1 a2 e1 -> Q a2 a3 e2 -> Q a1 a3 (e1 ++ e2);
}.

(** The sensor a sampling event is about. *)
Definition event_sensor (e : event) : option json :=
  match e with
  | EvReadStart s | EvResolve s _ | EvDriverRead s _ _ => Some s
  | _ => None
  end.

(** A reading submission that failed: no reply, or an error status. *)
Definition is_failed_submission (e : event) : bool :=
  match e with
  | EvHttp (PostReading _ _) NoReply => true
  | EvHttp (PostReading _ _) (Reply code _) => is_http_error code
  | _ => false
  end.

(** What a sampling pass does: read attempts, driver resolutions and
    loads, driver invocations, reading submissions. *)
Definition is_sampling (e : event) : bool :=
  match e with
  | EvReadStart _ | EvResolve _ _ | EvExecModule _ | EvConstruct _ _
  | EvDriverRead _ _ _ | EvHttp (PostReading _ _) _ => true
  | _ => false
  end.

(** Either the state is what it was and no submission failed, or the
    state is OFFLINE. *)
Definition went_offline : Agent -> Agent -> list event -> Prop :=
  fun a a' evs =>
    (state a' = state a /\ Forall (fun e => is_failed_submission e = false) evs) \/
    state a' = OFFLINE.

(** The state is ONLINE afterwards only if it was before or the change to
    ONLINE is among the events. *)
Definition came_online : Agent -> Agent -> list event -> Prop :=
  fun a a' evs => state a' = ONLINE -> state a = ONLINE \/ EvStateChange ONLINE ∈ evs.

(** No sampling event before the state changes to ONLINE. *)
Definition quiet_until_online (evs : list event) : Prop :=
  forall pre e post,
    evs = pre ++ e :: post ->
    is_sampling e = true ->
    EvStateChange ONLINE ∈ pre.

(** What the gate of the activities gives: begun outside ONLINE, the
    events are quiet until the state changes to ONLINE; and the state is
    ONLINE afterwards only if it was before or the change is among the
    events. *)
Definition gated : Agent -> Agent -> list event -> Prop :=
  fun a a' evs =>
    (state a <> ONLINE -> quiet_until_online evs) /\
    came_online a a' evs.

(** A constructor call that returned an instance for the name [k]. *)
Definition is_construct (k : Py.key) (e : event) : bool :=
  match e with
  | EvConstruct k' _ => bool_decide (k' = k)
  | _ => false
  end.

(** How many times a driver was instantiated under the name [k]. *)
Definition constructs (k : Py.key) (evs : list event) : nat :=
  List.length (filter (fun e => is_construct k e = true) evs).

(** The cache keeps its entries; each new entry is an instance a
    constructor call returned among the events; and a name is constructed
    exactly when it enters the cache. *)
Definition cache_grows : Agent -> Agent -> list event -> Prop :=
  fun a a' evs =>
    driver_instances a ⊆ driver_instances a' /\
    (forall k d, driver_instances a' !! k = Some d ->
       driver_instances a !! k = Some d \/ EvConstruct k d ∈ evs) /\
    (forall k, constructs k evs =
       if decide (is_Some (driver_instances a !! k)) then 0%nat
       else if decide (is_Some (driver_instances a' !! k)) then 1%nat else 0%nat).

(** What [get_effective_frequency] returns, as a function of the global
    frequency and the sensor. *)
Definition effective_frequency (g sensor_config : json) : res json :=
  match Py.as_num g with
  | Raise e => Raise e
  | Ret n =>
      if 0 <? n then Ret g
      else Py.get_default sensor_config "read_frequency" (JNum 300)
  end.

(** The machine once [last_read_times[k] = now] is done. *)
Definition mark (k : Py.key) (now : Z) (m : machine) : machine :=
  mkMachine (set_last_read_time k now (self m)) (world m).

(** An attempt: the line that announces it, then [o]. *)
Definition started (sensor_config : json) (o : out unit) : out unit :=
  mkOut (value o) (after o) (EvReadStart sensor_config :: events o).

(** The events [evs], then [o]. *)
Definition preceded (evs : list event) (o : out unit) : out unit :=
  mkOut (value o) (after o) (evs ++ events o).

(** What the loop body does with what the driver's [read] gave: a value
    is submitted; [None] and an exception are only logged. *)
Definition after_reading (id : json) (reading : read_result Reading) : M unit :=
  match reading with
  | ReadValue r => send_reading id r
  | ReadNone | ReadRaise _ => ret tt
  end.

(** [self.last_read_times.get(id, 0)] *)
Definition last_read (a : Agent) (k : Py.key) : Z :=
  default 0 (last_read_times a !! k).

(** What the [try] statement of the loop body leaves alone: the
    timestamps, the global frequency, the configuration; and it starts no
    attempt of its own. *)
Definition attempt_frame : Agent -> Agent -> list event -> Prop :=
  fun a a' evs =>
    last_read_times a' = last_read_times a /\
    global_read_frequency_seconds a' = global_read_frequency_seconds a /\
    config a' = config a /\
    Forall (fun e => forall s, e <> EvReadStart s) evs.

(** A pass at time [now] leaves on every sensor it attempts the
    timestamp [now]. *)
Definition marks (now : Z) (s : json) : Agent -> Agent -> list event -> Prop :=
  fun a a' evs =>
    (forall k, last_read_times a !! k = Some now -> last_read_times a' !! k = Some now) /\
    (EvReadStart s ∈ evs ->
     exists id k, Py.item s "id" = Ret id /\ Py.hash_key id = Ret k /\
                  last_read_times a' !! k = Some now).

(** Within the window: a pass at time [now] with [t <= now < t + f]
    starts no attempt on a sensor of frequency [f] whose timestamp is at
    least [t], and leaves its timestamp at least [t]. *)
Definition in_window (now t f : Z) (g s : json) (k : Py.key)
  : Agent -> Agent -> list event -> Prop :=
  fun a a' evs =>
    global_read_frequency_seconds a' = global_read_frequency_seconds a /\
    (global_read_frequency_seconds a = g ->
     (exists v, last_read_times a !! k = Some v /\ t <= v) ->
     (exists v, last_read_times a' !! k = Some v /\ t <= v) /\ EvReadStart s ∉ evs).

(** The global frequency is what it was. *)
Definition keeps_frequency : Agent -> Agent -> list event -> Prop :=
  fun a a' _ => global_read_frequency_seconds a' = global_read_frequency_seconds a.

(** The key under which a sensor's timestamp is kept. *)
Definition sensor_key (sensor_config : json) : res Py.key :=
  match Py.item sensor_config "id" with
  | Ret id => Py.hash_key id
  | Raise e => Raise e
  end.

(** The numeric effective frequency of a sensor under the global
    frequency [g]. *)
Definition frequency_of (g sensor_config : json) : res Z :=
  match effective_frequency g sensor_config with
  | Ret fj => Py.as_num fj
  | Raise e => Raise e
  end.

(** A sensor on which the loop body cannot raise: it has a hashable id, a
    name, a numeric frequency and names a driver. *)
Definition well_formed (g sensor_config : json) : Prop :=
  (exists k, sensor_key sensor_config = Ret k) /\
  (exists name, Py.item sensor_config "name" = Ret name) /\
  (exists f, frequency_of g sensor_config = Ret f) /\
  (exists pc dn, Py.item sensor_config "parser_config" = Ret pc /\
                 Py.item pc "driver" = Ret dn).

End vocabulary.

(** ** More vocabulary: the state log, the status reports, the frames *)

Section vocabulary_more.
Context {H : Host}.

(** The state after the logged state changes of [evs], from the state [s]. *)
Fixpoint replay (s : conn_state) (evs : list event) : conn_state :=
  match evs with
  | [] => s
  | EvStateChange s' :: rest => replay s' rest
  | _ :: rest => replay s rest
  end.

(** Every logged state change is a change: none repeats the state it is
    logged in. *)
Fixpoint changes_only (s : conn_state) (evs : list event) : bool :=
  match evs with
  | [] => true
  | EvStateChange s' :: rest => negb (bool_decide (s = s')) && changes_only s' rest
  | _ :: rest => changes_only s rest
  end.

(** The log of state changes accounts for the state. *)
Definition state_logged : Agent -> Agent -> list event -> Prop :=
  fun a a' evs =>
    replay (state a) evs = state a' /\ changes_only (state a) evs = true.

(** No attribute of [self] changes. *)
Definition same_self : Agent -> Agent -> list event -> Prop :=
  fun a a' _ => a' = a.

(** The status reports among the events: command id and status, in order. *)
Fixpoint reports (evs : list event) : list (json * string) :=
  match evs with
  | [] => []
  | EvHttp (PostStatus id status) _ :: rest => (id, status) :: reports rest
  | _ :: rest => reports rest
  end.

(** The replies to the command poll after which no command is executed
    and nothing is raised: no reply, a status other than 200, a falsy
    body, or a body that [response.json()] rejects with a
    [RequestException]. *)
Definition no_commands (r : http_reply) : bool :=
  match r with
  | NoReply => true
  | Reply 200 (BodyJson j) => negb (Py.truthy j)
  | Reply 200 (BodyInvalid e) => is_request_exception e
  | Reply _ _ => true
  end.

(** A command that carries a type and an id. *)
Definition proper_command (command : json) : Prop :=
  exists command_type id,
    Py.item command "command_type" = Ret command_type /\ Py.item command "id" = Ret id.

(** A [requests] call. *)
Definition is_http (e : event) : bool :=
  match e with
  | EvHttp _ _ => true
  | _ => false
  end.

(** A request for the configuration. *)
Definition is_config_request (e : event) : bool :=
  match e with
  | EvHttp GetConfig _ => true
  | _ => false
  end.

(** The keys of the driver cache are strings. *)
Definition string_keys (cache : gmap Py.key Driver) : Prop :=
  forall k d, cache !! k = Some d -> exists s, k = Py.KStr s.

Definition keeps_string_keys : Agent -> Agent -> list event -> Prop :=
  fun a a' _ => string_keys (driver_instances a) -> string_keys (driver_instances a').

End vocabulary_more.

(** The buffer starts with a frame: 0xFF, two bytes, their checksum. *)
Definition frame_at (buffer : list byte) : bool :=
  match buffer with
  | b0 :: b1 :: b2 :: b3 :: _ =>
      (DfrobotUlt.byte_val b0 =? 255) &&
      (DfrobotUlt.checksum b0 b1 b2 =? DfrobotUlt.byte_val b3)
  | _ => false
  end.

(** The underscores of a string. *)
Fixpoint underscores (s : string) : nat :=
  match s with
  | EmptyString => 0
  | String c s' => (if Ascii.eqb c "_"%char then 1 else 0) + underscores s'
  end.

(** [s.isascii()]: every character is below 128.  On such a string
    [Py.capitalize] and [Py.lower] are [str.capitalize] and [str.lower]. *)
Fixpoint isascii (s : string) : bool :=
  match s with
  | EmptyString => true
  | String c s' => (nat_of_ascii c <? 128)%nat && isascii s'
  end.

(** * Proofs *)

#[local] Arguments Py.eqb : simpl never.
#[local] Arguments _set_state : simpl never.
#[local] Arguments load_driver : simpl never.
#[local] Arguments send_reading : simpl never.
#[local] Arguments update_command_status : simpl never.

(** ** Relations that every step of a computation respects *)

Section respects.
Context {H : Host}.

Context (R : machine -> machine -> list event -> Prop) `{!Composable R}.

Lemma respects_ret {A} (a : A) : respects R (ret a).
Proof. intros m. apply comp_refl. Qed.

Lemma respects_raise {A} e : respects R (raise (A:=A) e).
Proof. intros m. apply comp_refl. Qed.

Lemma respects_lift {A} (r : res A) : respects R (lift r).
Proof. destruct r; [apply respects_ret | apply respects_raise]. Qed.

Lemma respects_get_self : respects R get_self.
Proof. intros m. apply comp_refl. Qed.

Lemma respects_bind {A B} (c : M A) (k : A -> M B) :
  respects R c -> (forall a, respects R (k a)) -> respects R (bind c k).
Proof.
  intros Hc Hk m. unfold bind. specialize (Hc m).
  destruct (c m) as [[a|e] m1 e1]; simpl in *; [|done].
  specialize (Hk a m1). destruct (k a m1) as [v m2 e2]; simpl in *.
  by eapply comp_trans.
Qed.

Lemma respects_bind_ret {A B} (a : A) (k : A -> M B) :
  respects R (k a) -> respects R (bind (ret a) k).
Proof.
  intros Hk m. unfold bind, ret. specialize (Hk m).
  by destruct (k a m) as [v m2 e2].
Qed.

Lemma respects_bind_raise {A B} e (k : A -> M B) :
  respects R (bind (raise e) k).
Proof. intros m. apply comp_refl. Qed.

Lemma respects_try_except {A} (c : M A) catches (h : M A) :
  respects R c -> respects R h -> respects R (try_except c catches h).
Proof.
  intros Hc Hh m. unfold try_except. specialize (Hc m).
  destruct (c m) as [[a|e] m1 e1]; simpl in *; [done|].
  destruct (catches e); simpl; [|done].
  specialize (Hh m1). destruct (h m1) as [v m2 e2]; simpl in *.
  by eapply comp_trans.
Qed.

Lemma respects_for_each {A} (l : list A) (body : A -> M unit) :
  (forall x, x ∈ l -> respects R (body x)) -> respects R (for_each l body).
Proof.
  induction l as [|x l IH]; intros Hb; simpl.
  - apply respects_ret.
  - apply respects_bind.
    + apply Hb. left.
    + intros _. apply IH. intros y Hy. apply Hb. by right.
Qed.

Lemma elem_of_bind_l {A B} (c : M A) (k : A -> M B) m e :
  e ∈ events (c m) -> e ∈ events (bind c k m).
Proof.
  unfold bind. destruct (c m) as [[a|x] m1 e1]; simpl; [|done].
  destruct (k a m1) as [v m2 e2]; simpl. intros. apply elem_of_app. by left.
Qed.

Lemma elem_of_bind_r {A B} (c : M A) (k : A -> M B) m a e :
  value (c m) = Ret a -> e ∈ events (k a (after (c m))) -> e ∈ events (bind c k m).
Proof.
  unfold bind. destruct (c m) as [[a'|x] m1 e1]; simpl; [|done].
  intros [= ->]. destruct (k a m1) as [v m2 e2]; simpl. intros. apply elem_of_app. by right.
Qed.

Lemma elem_of_try_l {A} (c : M A) catches (h : M A) m e :
  e ∈ events (c m) -> e ∈ events (try_except c catches h m).
Proof.
  unfold try_except. destruct (c m) as [[a|x] m1 e1]; simpl; [done|].
  destruct (catches x); [|done].
  destruct (h m1) as [v m2 e2]; simpl. intros. apply elem_of_app. by left.
Qed.

End respects.

(** Walks through a method: sequencing, handlers, loops and branches are
    taken apart, what is left are the leaves (events, assignments, calls
    into the host), closed from the hint database. *)
Create HintDb leaf discriminated.

Ltac walk :=
  repeat first
    [ solve [eauto with leaf]
    | apply respects_ret; solve [typeclasses eauto]
    | apply respects_raise; solve [typeclasses eauto]
    | apply respects_lift; solve [typeclasses eauto]
    | apply respects_get_self; solve [typeclasses eauto]
    | apply respects_bind; [typeclasses eauto | | intros ?]
    | apply respects_try_except; [typeclasses eauto | |]
    | apply respects_for_each; [typeclasses eauto | intros ? ?]
    | match goal with
      | |- respects _ (match ?x with _ => _ end) => destruct x
      end
    | progress unfold raise_for_status, response_json, analyze_snow_depth ].

(** ** The binary-frame parser *)

Section frame_parser.
Import DfrobotUlt.

Lemma scan_app_found (b c : list byte) d :
  scan b = inl d -> scan (b ++ c) = inl d.
Proof.
  induction b as [|b0 tl IH]; [done|].
  destruct tl as [|b1 [|b2 [|b3 tl']]]; try done.
  intros Hs. simpl in Hs |- *.
  destruct (byte_val b0 =? 255); [destruct (checksum b0 b1 b2 =? byte_val b3)|];
    first done; by apply IH.
Qed.

Lemma scan_app_rest (b c r : list byte) :
  scan b = inr r -> scan (b ++ c) = scan (r ++ c).
Proof.
  induction b as [|b0 tl IH]; [by intros [= <-]|].
  destruct tl as [|b1 [|b2 [|b3 tl']]]; try by intros [= <-].
  intros Hs. simpl in Hs |- *.
  destruct (byte_val b0 =? 255); [destruct (checksum b0 b1 b2 =? byte_val b3)|];
    first done; by apply IH.
Qed.

Lemma scan_rest_short (b r : list byte) :
  scan b = inr r -> scan r = inr r.
Proof.
  induction b as [|b0 tl IH]; [by intros [= <-]|].
  destruct tl as [|b1 [|b2 [|b3 tl']]]; try by intros [= <-].
  intros Hs. simpl in Hs.
  destruct (byte_val b0 =? 255); [destruct (checksum b0 b1 b2 =? byte_val b3)|];
    first done; by apply IH.
Qed.

(** However the port cuts the stream into reads, the loop finds the
    frame that one scan of the whole stream finds. *)
Lemma read_loop_chunks (chunks : list (list byte)) : forall buffer d,
  scan buffer = inr buffer ->
  scan (buffer ++ List.concat chunks) = inl d ->
  read_loop buffer (Chunk <$> chunks) = Some d.
Proof.
  induction chunks as [|c cs IH]; intros buffer d Hshort Hfound; simpl in *.
  - rewrite app_nil_r in Hfound. congruence.
  - rewrite app_assoc in Hfound.
    destruct (scan (buffer ++ c)) as [d'|buffer'] eqn:Hscan.
    + apply scan_app_found with (c := List.concat cs) in Hscan. congruence.
    + apply IH.
      * by eapply scan_rest_short.
      * by rewrite <- (scan_app_rest _ _ _ Hscan).
Qed.

Lemma byte_val_range b : 0 <= byte_val b < 256.
Proof. unfold byte_val. pose proof (Byte.to_N_bounded b). lia. Qed.

Lemma checksum_mod b0 b1 b2 :
  checksum b0 b1 b2 = (byte_val b0 + byte_val b1 + byte_val b2) mod 256.
Proof. unfold checksum. by rewrite (Z.land_ones _ 8) by lia. Qed.

Lemma distance_mm_big_endian b1 b2 :
  distance_mm b1 b2 = 256 * byte_val b1 + byte_val b2.
Proof.
  unfold distance_mm.
  pose proof (byte_val_range b1). pose proof (byte_val_range b2).
  rewrite Z.shiftl_mul_pow2 by lia.
  rewrite <- Z.add_nocarry_lor.
  - change (2 ^ 8) with 256. lia.
  - apply Z.bits_inj'. intros n Hn. rewrite Z.land_spec, Z.bits_0.
    destruct (decide (n < 8)).
    + rewrite Z.mul_pow2_bits_low by lia. done.
    + rewrite (Z.bits_above_log2 (byte_val b2)); [apply andb_false_r| lia |].
      destruct (decide (byte_val b2 = 0)) as [->|]; [simpl; lia|].
      apply Z.log2_lt_pow2; [lia|]. 
      assert (2 ^ 8 <= 2 ^ n); [apply Z.pow_le_mono_r; lia|]. change (2^8) with 256 in *. lia.
Qed.

(** C3. On the stream 01 FF 01 2C 2C, however the serial port cuts it
    into reads, the driver skips the leading byte, accepts the frame
    FF 01 2C 2C (its checksum, the sum of the first three bytes modulo
    256, is the fourth byte), decodes the big-endian value 0x012C = 300 mm
    and returns 30.0 cm.  In general a buffer of at least four bytes that
    starts with 0xFF and whose checksum does not match loses exactly its
    first byte and is scanned again; one whose checksum matches yields
    the distance. *)
Theorem binary_frame_parser :
  (forall config port chunks,
      Py.get config "port" = Ret port ->
      Py.truthy port = true ->
      List.concat chunks = example_stream ->
      read config (Some (Chunk <$> chunks)) = Ret (Some (Q2Qc 30))) /\
  scan example_stream = scan [xff; x01; x2c; x2c] /\
  checksum xff x01 x2c = byte_val x2c /\
  distance_mm x01 x2c = 300 /\
  (forall b0 b1 b2,
      checksum b0 b1 b2 = (byte_val b0 + byte_val b1 + byte_val b2) mod 256) /\
  (forall b1 b2, distance_mm b1 b2 = 256 * byte_val b1 + byte_val b2) /\
  (forall b0 b1 b2 b3 rest,
      byte_val b0 = 255 ->
      checksum b0 b1 b2 <> byte_val b3 ->
      scan (b0 :: b1 :: b2 :: b3 :: rest) = scan (b1 :: b2 :: b3 :: rest)) /\
  (forall b0 b1 b2 b3 rest,
      byte_val b0 = 255 ->
      checksum b0 b1 b2 = byte_val b3 ->
      scan (b0 :: b1 :: b2 :: b3 :: rest) = inl (distance_cm (distance_mm b1 b2))).
Proof.
  repeat split.
  - intros config port chunks Hport Htruthy Hchunks.
    unfold read. rewrite Hport, Htruthy.
    destruct config; try done. simpl.
    rewrite (read_loop_chunks chunks [] (Q2Qc 30)); [done | done |].
    simpl. rewrite Hchunks. simpl. f_equal. by apply Qc_is_canon.
  - apply checksum_mod.
  - apply distance_mm_big_endian.
  - intros b0 b1 b2 b3 rest Hb0 Hsum. simpl.
    rewrite (proj2 (Z.eqb_eq _ _) Hb0). by rewrite (proj2 (Z.eqb_neq _ _) Hsum).
  - intros b0 b1 b2 b3 rest Hb0 Hsum. simpl.
    rewrite (proj2 (Z.eqb_eq _ _) Hb0). by rewrite (proj2 (Z.eqb_eq _ _) Hsum).
Qed.

End frame_parser.

(** ** Properties of the events alone *)

Section events_only.
Context {H : Host}.

#[global] Instance all_events_composable P : Composable (all_events P).
Proof.
  split; unfold all_events.
  - intros _. constructor.
  - intros _ _ _ e1 e2 H1 H2. by apply Forall_app.
Qed.

Lemma all_events_emit (P : event -> Prop) e : P e -> respects (all_events P) (emit e).
Proof. intros He m. by repeat constructor. Qed.

Lemma all_events_modify_self (P : event -> Prop) f : respects (all_events P) (modify_self f).
Proof. intros m. constructor. Qed.

Lemma all_events_call (P : event -> Prop) {A} (f : World -> World * A) :
  respects (all_events P) (call f).
Proof. intros m. unfold call. destruct (f (world m)). constructor. Qed.

End events_only.

#[global] Hint Resolve all_events_modify_self all_events_call : leaf.
#[global] Hint Extern 1 (respects (all_events _) (emit _)) =>
  apply all_events_emit; done : leaf.

(** ** Command execution *)

Section commands.
Context {H : Host}.

Lemma capture_image_no_report camera_id :
  respects (all_events (fun e => is_status_report e = false)) (capture_image camera_id).
Proof. unfold capture_image. walk. Qed.

Lemma dispatch_no_report command :
  respects (all_events (fun e => is_status_report e = false)) (dispatch command).
Proof.
  unfold dispatch, analyze_snow_depth. pose proof capture_image_no_report. walk.
Qed.

Lemma update_command_status_spec id status m :
  exists reply w,
    update_command_status id status m =
      mkOut (Ret tt) (mkMachine (self m) w) [EvHttp (PostStatus id status) reply].
Proof.
  unfold update_command_status, try_except, request_, bind, call, emit, ret, raise.
  destruct (http (world m) (PostStatus id status)) as [w [|code b]]; simpl; eauto.
Qed.

(** C8. Executing a command that carries a [command_type] and an [id]
    never raises and makes exactly one status-report call, for that id,
    with status [completed] or [failed]: whatever the command type is
    (known or not) and whatever the dispatched action does (return or
    throw). *)
Theorem execute_command_reports_once command command_type id m :
  Py.item command "command_type" = Ret command_type ->
  Py.item command "id" = Ret id ->
  let o := execute_command command m in
  value o = Ret tt /\
  exists status reply,
    filter (fun e => is_status_report e = true) (events o)
      = [EvHttp (PostStatus id status) reply] /\
    (status = "completed" \/ status = "failed").
Proof.
  intros Hct Hid.
  pose proof (dispatch_no_report command m) as Hd. unfold all_events in Hd.
  assert (filter (fun e => is_status_report e = true) (events (dispatch command m)) = []) as Hnone.
  { induction Hd as [|e l He _ IH]; [done|].
    rewrite filter_cons. destruct (decide (is_status_report e = true)); [congruence|done]. }
  unfold execute_command. rewrite Hct, Hid.
  unfold try_except, bind, lift, ret. simpl.
  destruct (dispatch command m) as [[success|e] m1 ev1]; simpl in *.
  - destruct (update_command_status_spec id (status_of success) m1) as (reply & w & ->).
    simpl. split; [done|].
    exists (status_of success), reply. rewrite filter_app, Hnone. simpl.
    split; [done|]. destruct success; auto.
  - destruct (update_command_status_spec id "failed" m1) as (reply & w & ->).
    simpl. split; [done|].
    exists "failed", reply. rewrite filter_app, Hnone. simpl. auto.
Qed.

Lemma eqb_str_false x s : x <> JStr s -> Py.eqb x (JStr s) = false.
Proof.
  intros Hx. destruct x; try done.
  apply String.eqb_neq. congruence.
Qed.

(** C9. For a command whose [command_type] is neither [CAPTURE_IMAGE] nor
    [ANALYZE_SNOW_DEPTH], the only thing [execute_command] does is report
    the status [failed] for the command's id. *)
Theorem unknown_command_reports_failed command command_type id m :
  Py.item command "command_type" = Ret command_type ->
  Py.item command "id" = Ret id ->
  command_type <> JStr "CAPTURE_IMAGE" ->
  command_type <> JStr "ANALYZE_SNOW_DEPTH" ->
  let o := execute_command command m in
  value o = Ret tt /\
  self (after o) = self m /\
  exists reply, events o = [EvHttp (PostStatus id "failed") reply].
Proof.
  intros Hct Hid Hc Ha. unfold execute_command, dispatch. rewrite Hct, Hid.
  unfold try_except, bind, lift, ret. simpl.
  rewrite (eqb_str_false _ _ Hc), (eqb_str_false _ _ Ha). simpl.
  destruct (update_command_status_spec id "failed" m) as (reply & w & ->).
  simpl. eauto.
Qed.

End commands.

(** ** Configuration fetch *)

Section fetch.
Context {H : Host}.

Lemma set_state_spec s m :
  exists evs,
    _set_state s m = mkOut (Ret tt) (mkMachine (set_state_field s (self m)) (world m)) evs.
Proof.
  unfold _set_state, bind, get_self, modify_self, emit, ret.
  destruct (decide (state (self m) = s)) as [<-|]; simpl; eexists; [|done].
  destruct m as [[]]; done.
Qed.

Lemma set_state_twice s1 s2 a : set_state_field s2 (set_state_field s1 a) = set_state_field s2 a.
Proof. done. Qed.

Lemma fetch_config_failure_out m :
  request_failure (http (world m) GetConfig).2 = true ->
  exists w evs,
    fetch_config m = mkOut (Ret tt) (mkMachine (set_state_field OFFLINE (self m)) w) evs.
Proof.
  intros Hfail. unfold fetch_config.
  unfold bind at 1. destruct (set_state_spec CONFIGURING m) as (ev0 & ->).
  unfold try_except, request_, raise_for_status, response_json, bind, call, emit, raise, ret.
  simpl in *.
  destruct (http (world m) GetConfig) as [w [|code b]]; simpl in *; [by eauto|].
  destruct (is_http_error code); simpl in *; [by eauto|].
  destruct b as [j|e]; [done|]. simpl. rewrite Hfail. simpl. by eauto.
Qed.

(** The handler of [fetch_config].  When the request for the
    configuration fails as a [requests] call (no reply, an error status,
    or a body that [response.json()] rejects with a [RequestException]),
    [fetch_config] returns normally, the state is OFFLINE, and the
    configuration, the global read frequency, the driver cache and the
    timestamps are what they were. *)
Theorem fetch_config_failure m :
  request_failure (http (world m) GetConfig).2 = true ->
  let o := fetch_config m in
  value o = Ret tt /\
  state (self (after o)) = OFFLINE /\
  config (self (after o)) = config (self m) /\
  global_read_frequency_seconds (self (after o)) = global_read_frequency_seconds (self m) /\
  driver_instances (self (after o)) = driver_instances (self m) /\
  last_read_times (self (after o)) = last_read_times (self m).
Proof.
  intros Hfail. destruct (fetch_config_failure_out m Hfail) as (w & evs & ->). done.
Qed.

End fetch.

(** ** Relations on the agent's attributes *)

Section on_self.
Context {H : Host}.

#[global] Instance on_self_composable Q `{!ComposableSelf Q} : Composable (on_self Q).
Proof.
  split; unfold on_self.
  - intros m. apply self_refl.
  - intros m1 m2 m3 e1 e2. apply self_trans.
Qed.

Lemma on_self_call Q `{!ComposableSelf Q} {A} (f : World -> World * A) :
  respects (on_self Q) (call f).
Proof. intros m. unfold call, on_self. destruct (f (world m)). apply self_refl. Qed.

Lemma on_self_emit Q e : (forall a, Q a a [e]) -> respects (on_self Q) (emit e).
Proof. intros He m. apply He. Qed.

Lemma on_self_modify Q f : (forall a, Q a (f a) []) -> respects (on_self Q) (modify_self f).
Proof. intros Hf m. apply Hf. Qed.

Lemma active_sensors_candidates sensors : forall active,
  active_sensors sensors = Ret active ->
  forall x, x ∈ active -> is_candidate x = Ret true.
Proof.
  induction sensors as [|s rest IH]; simpl; intros active Hact x Hx.
  - injection Hact as <-. by apply elem_of_nil in Hx.
  - destruct (is_candidate s) as [keep|] eqn:Hs; [|done].
    destruct (active_sensors rest) as [l|]; [|done].
    injection Hact as <-. destruct keep.
    + apply elem_of_cons in Hx as [->|Hx]; [done | by eapply IH].
    + by eapply IH.
Qed.

(** A relation that every turn of the loop body respects is respected by
    the loop of the sampling pass; with the calls into the host, by the
    whole pass. *)
Lemma respects_process_sensors_at R `{!Composable R} now :
  (forall x, is_candidate x = Ret true -> respects R (process_sensor now x)) ->
  respects R (process_sensors_at now).
Proof.
  intros Hbody. unfold process_sensors_at.
  do 3 (apply respects_bind; [apply _ | walk | intros ?]).
  destruct (active_sensors _) as [active|] eqn:Hact; simpl;
    [apply respects_bind_ret | apply respects_bind_raise]; try apply _.
  apply respects_for_each; [apply _|]. intros x Hx.
  apply Hbody. by apply (active_sensors_candidates _ _ Hact).
Qed.

Lemma respects_process_sensors R `{!Composable R} :
  (forall A (f : World -> World * A), respects R (call f)) ->
  (forall now x, is_candidate x = Ret true -> respects R (process_sensor now x)) ->
  respects R process_sensors.
Proof.
  intros Hcall Hbody. unfold process_sensors.
  apply respects_bind; [apply _ | walk | intros a].
  destruct (_ || _); [walk|].
  apply respects_bind; [apply _ | apply Hcall | intros now].
  apply respects_process_sensors_at; [apply _ | apply Hbody].
Qed.

End on_self.

#[global] Hint Extern 1 (respects (on_self _) (call _)) =>
  apply on_self_call; typeclasses eauto : leaf.

(** Case analysis on a scrutinee that has no case analysis inside. *)
Ltac destruct_inner :=
  match goal with
  | |- context [match ?x with _ => _ end] =>
      lazymatch x with
      | context [match _ with _ => _ end] => fail
      | _ => destruct x eqn:?
      end
  end.

(** Closes the leaves of a walk for a relation on [self]: [tac] proves the
    relation for one event, or for one assignment. *)
Ltac self_leaves tac :=
  lazymatch goal with
  | |- respects (on_self _) (emit _) => apply on_self_emit; intros ?; tac
  | |- respects (on_self _) (modify_self _) => apply on_self_modify; intros ?; tac
  end.

(** ** The sampling pass: which sensors it touches *)

Ltac unfold_pass :=
  unfold process_sensors_at, process_sensor, attempt_read, read_and_send,
    driver_name_of, get_effective_frequency.

Ltac unfold_transport :=
  unfold send_reading, update_command_status, request_, raise_for_status,
    response_json, _set_state.

Section candidates.
Context {H : Host}.

Lemma load_driver_untagged name s :
  respects (all_events (fun e => event_sensor e <> Some s)) (load_driver name).
Proof. unfold load_driver. walk. Qed.

Lemma send_reading_untagged id r s :
  respects (all_events (fun e => event_sensor e <> Some s)) (send_reading id r).
Proof. unfold_transport. walk. Qed.

Lemma process_sensor_tags_own now x s :
  x <> s ->
  respects (all_events (fun e => event_sensor e <> Some s)) (process_sensor now x).
Proof.
  intros Hx. pose proof load_driver_untagged. pose proof send_reading_untagged.
  unfold_pass. walk.
  all: apply all_events_emit; simpl; congruence.
Qed.

(** C7. A sensor whose [is_active] is false (or anything falsy) or whose
    [interface] is ['virtual'] is never the subject of a read attempt, a
    driver resolution or a driver invocation in a sampling pass, whatever
    the configuration, the timestamps and the host are. *)
Theorem inactive_or_virtual_never_sampled m s :
  (exists a, Py.get s "is_active" = Ret a /\ Py.truthy a = false) \/
  Py.get s "interface" = Ret (JStr "virtual") ->
  forall e, e ∈ events (process_sensors m) -> event_sensor e <> Some s.
Proof.
  intros Hs.
  assert (is_candidate s <> Ret true) as Hnot.
  { unfold is_candidate. destruct Hs as [(a & -> & ->)|Hi]; [done|].
    destruct (Py.get s "is_active") as [a|]; [|done].
    destruct (Py.truthy a); [|done]. by rewrite Hi. }
  apply Forall_forall.
  enough (respects (all_events (fun e => event_sensor e <> Some s)) process_sensors)
    as Hr by apply Hr.
  apply respects_process_sensors; [apply _ | intros; walk |].
  intros now x Hx. apply process_sensor_tags_own. congruence.
Qed.

End candidates.

(** ** Connectivity *)

Section connectivity.
Context {H : Host}.

#[local] Instance went_offline_composable : ComposableSelf went_offline.
Proof.
  split; unfold went_offline.
  - intros a. left. by split.
  - intros a1 a2 a3 e1 e2 [[H1 F1]|H1] [[H2 F2]|H2]; try (right; congruence).
    left. split; [congruence | by apply Forall_app].
Qed.

Lemma send_reading_went_offline id r :
  respects (on_self went_offline) (send_reading id r).
Proof.
  intros m. unfold send_reading, try_except, request_, raise_for_status, bind, call, emit,
    raise, ret, on_self, went_offline.
  destruct (http (world m) (PostReading id r)) as [w [|code b]]; simpl.
  - destruct (set_state_spec OFFLINE (mkMachine (self m) w)) as (evs & ->). by right.
  - destruct (is_http_error code) eqn:Hcode; simpl.
    + destruct (set_state_spec OFFLINE (mkMachine (self m) w)) as (evs & ->). by right.
    + left. split; [done|]. by repeat constructor.
Qed.

Lemma process_sensor_went_offline now x :
  respects (on_self went_offline) (process_sensor now x).
Proof.
  pose proof send_reading_went_offline. unfold_pass. walk.
  all: self_leaves ltac:(left; split; [done | by repeat constructor]).
Qed.

#[local] Instance came_online_composable : ComposableSelf came_online.
Proof.
  split; unfold came_online.
  - auto.
  - intros a1 a2 a3 e1 e2 H1 H2 H3. rewrite elem_of_app.
    destruct (H2 H3) as [H2'|]; [|by auto]. destruct (H1 H2'); auto.
Qed.

Lemma set_state_came_online s : respects (on_self came_online) (_set_state s).
Proof.
  intros m. unfold _set_state, bind, get_self, modify_self, emit, ret, on_self, came_online.
  destruct (decide (state (self m) = s)); simpl; [by auto|].
  intros ->. right. by left.
Qed.

Lemma perform_came_online a : respects (on_self came_online) (perform a).
Proof.
  pose proof set_state_came_online.
  destruct a; simpl.
  - unfold fetch_config. walk.
    all: self_leaves ltac:(by left).
  - unfold check_for_commands. walk.
    all: self_leaves ltac:(by left).
  - apply respects_process_sensors; [apply _ | intros; walk |].
    intros now x _. unfold_pass. walk.
    all: self_leaves ltac:(by left).
Qed.

Lemma fetch_config_no_sampling :
  respects (all_events (fun e => is_sampling e = false)) fetch_config.
Proof. unfold fetch_config. walk. Qed.

Lemma gate_closed m :
  state (self m) <> ONLINE ->
  process_sensors m = mkOut (Ret tt) m [] /\ check_for_commands m = mkOut (Ret tt) m [].
Proof.
  intros Hs. unfold process_sensors, check_for_commands, bind, get_self, ret.
  rewrite bool_decide_eq_false_2 by done. done.
Qed.

Lemma gate_closed_quiet a m :
  state (self m) <> ONLINE ->
  Forall (fun e => is_sampling e = false) (events (perform a m)).
Proof.
  intros Hs. destruct (gate_closed m Hs) as [Hp Hc].
  destruct a; simpl; [apply fetch_config_no_sampling | rewrite Hc | rewrite Hp]; constructor.
Qed.

Lemma quiet_of_no_sampling evs :
  Forall (fun e => is_sampling e = false) evs -> quiet_until_online evs.
Proof.
  intros Hall pre e post -> He. rewrite Forall_forall in Hall.
  rewrite Hall in He; [done|]. apply elem_of_app. right. by left.
Qed.

#[local] Instance gated_composable : ComposableSelf gated.
Proof.
  split; unfold gated.
  - intros a. split; [|apply (self_refl (Q:=came_online))].
    intros _ pre e post Hnil. by destruct pre.
  - intros a1 a2 a3 e1 e2 [Q1 O1] [Q2 O2].
    split; [|by eapply (self_trans (Q:=came_online))].
    intros Hs pre e post Hev He. specialize (Q1 Hs).
    apply app_eq_app in Hev as (l & [[-> Hl]|[-> Hl]]).
    + destruct l as [|e' l]; simpl in Hl.
      * subst e2. rewrite app_nil_r in *.
        destruct (decide (state a2 = ONLINE)) as [Ha2|Ha2].
        -- by destruct (O1 Ha2).
        -- by specialize (Q2 Ha2 [] e post eq_refl He); apply elem_of_nil in Q2.
      * injection Hl as <- _. by eapply Q1.
    + rewrite elem_of_app. destruct (decide (state a2 = ONLINE)) as [Ha2|Ha2].
      * left. by destruct (O1 Ha2).
      * right. by eapply Q2.
Qed.

(** Each activity of the loop, taken as a whole, is gated. *)
Lemma perform_gated a : respects (on_self gated) (perform a).
Proof.
  intros m. split; [|apply perform_came_online].
  intros Hs. by apply quiet_of_no_sampling, gate_closed_quiet.
Qed.

Lemma call_gated {A} (f : World -> World * A) : respects (on_self gated) (call f).
Proof. apply on_self_call. apply _. Qed.

Lemma perform_all_gated acts : respects (on_self gated) (perform_all acts).
Proof. pose proof perform_gated. unfold perform_all. walk. Qed.

Lemma main_loop_gated n : forall t1 t2, respects (on_self gated) (main_loop n t1 t2).
Proof.
  pose proof (perform_gated ConfigFetch). pose proof (perform_gated CommandPoll).
  pose proof (perform_gated SensorPass). pose proof @call_gated.
  induction n as [|n IH]; intros t1 t2; simpl; walk.
Qed.

Lemma sampling_never_online :
  respects (all_events (fun e => e <> EvStateChange ONLINE)) process_sensors /\
  respects (all_events (fun e => e <> EvStateChange ONLINE)) check_for_commands.
Proof.
  split.
  - apply respects_process_sensors; [apply _ | intros; walk |].
    intros now x _. unfold_pass. walk.
  - unfold check_for_commands. walk.
Qed.

(** The state changes to ONLINE only at the end of a configuration fetch
    that went through. *)
Lemma fetch_config_online m :
  EvStateChange ONLINE ∈ events (fetch_config m) ->
  value (fetch_config m) = Ret tt /\ state (self (after (fetch_config m))) = ONLINE.
Proof.
  unfold fetch_config, try_except, request_, raise_for_status, response_json, _set_state,
    bind, call, emit, raise, ret, lift, get_self, modify_self.
  repeat (simpl; destruct_inner); simpl; try done.
  all: rewrite ?elem_of_app, ?elem_of_cons, ?elem_of_nil; intuition discriminate.
Qed.


End connectivity.

(** ** The driver registry *)

Section registry.
Context {H : Host}.

(** The four ways a call of [load_driver] can go: the name cannot be
    hashed; the name is in the cache; the name is not in the cache and
    the load fails; the name is not in the cache and the load succeeds. *)
Lemma load_driver_cases name m :
  (exists e, Py.hash_key name = Raise e /\ load_driver name m = mkOut (Raise e) m []) \/
  (exists k d, Py.hash_key name = Ret k /\ driver_instances (self m) !! k = Some d /\
     load_driver name m = mkOut (Ret (Some d)) m []) \/
  (exists k w, Py.hash_key name = Ret k /\ driver_instances (self m) !! k = None /\
     load_driver name m =
       mkOut (Ret None) (mkMachine (self m) w) [EvExecModule (Py.str name)]) \/
  (exists k w d, Py.hash_key name = Ret k /\ driver_instances (self m) !! k = None /\
     load_driver name m =
       mkOut (Ret (Some d)) (mkMachine (set_driver_instance k d (self m)) w)
         [EvExecModule (Py.str name); EvConstruct k d]).
Proof.
  unfold load_driver, bind, lift, get_self, emit, call, modify_self, ret, raise.
  destruct (Py.hash_key name) as [k|e]; simpl; [|left; by eauto].
  right. destruct (driver_instances (self m) !! k) as [d|] eqn:Hk; simpl.
  { left. by eauto 10. }
  right.
  destruct (exec_module (world m) (Py.str name)) as [w [module|]]; simpl;
    [|left; by eauto 10].
  destruct name; simpl; try (left; by eauto 10).
  destruct (getattr module (class_name s)) as [cls|]; simpl; [|left; by eauto 10].
  destruct (construct w cls) as [w' [d|]]; simpl; [right|left]; by eauto 10.
Qed.

Lemma constructs_app k e1 e2 :
  constructs k (e1 ++ e2) = (constructs k e1 + constructs k e2)%nat.
Proof. unfold constructs. by rewrite filter_app, length_app. Qed.

#[local] Instance cache_grows_composable : ComposableSelf cache_grows.
Proof.
  split; unfold cache_grows.
  - intros a. split; [done|]. split; [by auto|].
    intros k. by repeat case_decide.
  - intros a1 a2 a3 e1 e2 (S1 & N1 & C1) (S2 & N2 & C2).
    split; [by etrans|]. split.
    + intros k d Hk. rewrite elem_of_app.
      destruct (N2 k d Hk) as [Hk2|]; [|by auto].
      destruct (N1 k d Hk2); auto.
    + intros k. rewrite constructs_app, C1, C2.
      repeat case_decide; try done.
      * exfalso. destruct H0 as [d Hd]. eauto using lookup_weaken.
      * exfalso. destruct H1 as [d Hd]. eauto using lookup_weaken.
Qed.

Lemma load_driver_cache_grows name : respects (on_self cache_grows) (load_driver name).
Proof.
  intros m. unfold on_self.
  destruct (load_driver_cases name m)
    as [(e & _ & ->)|[(k & d & _ & _ & ->)|[(k & w & _ & Hk & ->)|(k & w & d & _ & Hk & ->)]]];
    unfold cache_grows, set_driver_instance; simpl; try apply (self_refl (Q:=cache_grows)).
  - split; [done|]. split; [by auto|]. intros k'. unfold constructs. simpl.
    by repeat case_decide.
  - split; [by apply insert_subseteq|]. split.
    + intros k' d'. rewrite lookup_insert. case_decide as Hkk.
      * intros [= <-]. subst k'. right. set_solver.
      * auto.
    + intros k'. unfold constructs. rewrite filter_cons, filter_cons. simpl.
      destruct (decide (k = k')) as [<-|Hne].
      * rewrite bool_decide_eq_true_2 by done. simpl.
        rewrite lookup_insert_eq, Hk. 
        rewrite decide_False by (by intros [? ?]). by rewrite decide_True by eauto.
      * rewrite bool_decide_eq_false_2 by done. simpl.
        rewrite lookup_insert_ne by done. by repeat case_decide.
Qed.

Lemma cache_grows_same a a' evs :
  driver_instances a' = driver_instances a ->
  (forall k, constructs k evs = 0%nat) ->
  cache_grows a a' evs.
Proof.
  intros Hsame Hnone. unfold cache_grows. rewrite Hsame.
  split; [done|]. split; [by auto|].
  intros k. rewrite Hnone. by repeat case_decide.
Qed.

Ltac cache_leaves := self_leaves ltac:(by apply cache_grows_same).

Lemma fetch_config_cache_grows : respects (on_self cache_grows) fetch_config.
Proof. unfold fetch_config. walk. all: cache_leaves. Qed.

Lemma check_for_commands_cache_grows : respects (on_self cache_grows) check_for_commands.
Proof. unfold check_for_commands. walk. all: cache_leaves. Qed.

Lemma process_sensors_cache_grows : respects (on_self cache_grows) process_sensors.
Proof.
  pose proof load_driver_cache_grows.
  apply respects_process_sensors; [apply _ | intros; walk |].
  intros now x _. unfold_pass. walk. all: cache_leaves.
Qed.

Lemma perform_all_cache_grows acts : respects (on_self cache_grows) (perform_all acts).
Proof.
  pose proof fetch_config_cache_grows. pose proof check_for_commands_cache_grows.
  pose proof process_sensors_cache_grows.
  unfold perform_all. walk. destruct x; simpl; walk.
Qed.

Lemma main_loop_cache_grows n : forall t1 t2,
  respects (on_self cache_grows) (main_loop n t1 t2).
Proof.
  pose proof fetch_config_cache_grows. pose proof check_for_commands_cache_grows.
  pose proof process_sensors_cache_grows.
  induction n as [|n IH]; intros t1 t2; simpl; walk.
Qed.

Lemma start_cache_grows n : respects (on_self cache_grows) (start n).
Proof.
  pose proof fetch_config_cache_grows. pose proof main_loop_cache_grows.
  unfold start. walk.
Qed.

(** C6. Once [load_driver] has returned an instance for a name, every
    later call with that name, after whatever the loop ran in between,
    returns that same instance from the cache, loading and constructing
    nothing; and from [__init__] on, in any run of the main loop and in
    any sequence of the loop's activities, at most one constructor call
    returns an instance under each name. *)
Theorem load_driver_same_instance :
  (forall m name d,
      value (load_driver name m) = Ret (Some d) ->
      forall acts,
        let m' := after (perform_all acts (after (load_driver name m))) in
        load_driver name m' = mkOut (Ret (Some d)) m' []) /\
  (forall w n k, (constructs k (events (start n (mkMachine Agent_init w))) <= 1)%nat) /\
  (forall w acts k,
      (constructs k (events (perform_all acts (mkMachine Agent_init w))) <= 1)%nat).
Proof.
  split; [|split].
  - intros m name d Hv acts m'.
    assert (exists k, Py.hash_key name = Ret k /\
              driver_instances (self (after (load_driver name m))) !! k = Some d)
      as (k & Hk & Hd).
    { destruct (load_driver_cases name m)
        as [(e & _ & Hl)|[(k & d' & Hk & Hd & Hl)|[(k & w & _ & _ & Hl)|(k & w & d' & Hk & _ & Hl)]]];
        rewrite Hl in Hv |- *; simpl in *; try done; injection Hv as ->; exists k.
      - done.
      - split; [done|]. apply lookup_insert_eq. }
    destruct (perform_all_cache_grows acts (after (load_driver name m))) as (Hsub & _).
    fold m' in Hsub. pose proof (lookup_weaken _ _ _ _ Hd Hsub) as Hd'.
    destruct (load_driver_cases name m')
      as [(e & He & _)|[(k' & d' & Hk' & Hd'' & Hl)|[(k' & w & Hk' & Hn & _)|(k' & w & d' & Hk' & Hn & _)]]];
      congruence.
  - intros w n k. destruct (start_cache_grows n (mkMachine Agent_init w)) as (_ & _ & Hc).
    rewrite Hc. repeat case_decide; lia.
  - intros w acts k.
    destruct (perform_all_cache_grows acts (mkMachine Agent_init w)) as (_ & _ & Hc).
    rewrite Hc. repeat case_decide; lia.
Qed.

End registry.

(** ** Scheduling of the reads *)

Section scheduling.
Context {H : Host}.

Lemma get_effective_frequency_spec s m :
  get_effective_frequency s m =
    mkOut (effective_frequency (global_read_frequency_seconds (self m)) s) m [].
Proof.
  unfold get_effective_frequency, effective_frequency, bind, get_self, lift, ret, raise.
  simpl. destruct (Py.as_num _) as [n|e]; simpl; [|done].
  destruct (0 <? n); simpl; [done|].
  by destruct (Py.get_default s "read_frequency" (JNum 300)).
Qed.

(** The loop body on a sensor whose read is due ... *)
Lemma process_sensor_due now s m id k fj f name :
  Py.item s "id" = Ret id ->
  Py.hash_key id = Ret k ->
  effective_frequency (global_read_frequency_seconds (self m)) s = Ret fj ->
  Py.as_num fj = Ret f ->
  Py.item s "name" = Ret name ->
  f <= now - last_read (self m) k ->
  process_sensor now s m = started s (attempt_read s id (mark k now m)).
Proof.
  intros Hid Hk Hfj Hf Hname Hdue.
  unfold process_sensor, bind. rewrite Hid. simpl. rewrite Hk. simpl.
  rewrite get_effective_frequency_spec, Hfj. simpl. rewrite Hf. simpl.
  unfold last_read in Hdue. rewrite (proj2 (Z.leb_le _ _) Hdue).
  rewrite Hname. simpl. unfold started, mark.
  by destruct (attempt_read s id _).
Qed.

(** ... and on one whose read is not. *)
Lemma process_sensor_not_due now s m id k fj f :
  Py.item s "id" = Ret id ->
  Py.hash_key id = Ret k ->
  effective_frequency (global_read_frequency_seconds (self m)) s = Ret fj ->
  Py.as_num fj = Ret f ->
  now - last_read (self m) k < f ->
  process_sensor now s m = mkOut (Ret tt) m [].
Proof.
  intros Hid Hk Hfj Hf Hdue.
  unfold process_sensor, bind. rewrite Hid. simpl. rewrite Hk. simpl.
  rewrite get_effective_frequency_spec, Hfj. simpl. rewrite Hf. simpl.
  unfold last_read in Hdue. by rewrite (proj2 (Z.leb_gt _ _) Hdue).
Qed.

(** In every case the loop body either does nothing, or starts an
    attempt on a sensor whose read is due. *)
Lemma process_sensor_cases now s m :
  (exists v, process_sensor now s m = mkOut v m []) \/
  (exists id k fj f name,
      Py.item s "id" = Ret id /\ Py.hash_key id = Ret k /\
      effective_frequency (global_read_frequency_seconds (self m)) s = Ret fj /\
      Py.as_num fj = Ret f /\ Py.item s "name" = Ret name /\
      f <= now - last_read (self m) k /\
      process_sensor now s m = started s (attempt_read s id (mark k now m))).
Proof.
  destruct (Py.item s "id") as [id|e] eqn:Hid;
    [|left; unfold process_sensor, bind; rewrite Hid; by eauto].
  destruct (Py.hash_key id) as [k|e] eqn:Hk;
    [|left; unfold process_sensor, bind; rewrite Hid; simpl; rewrite Hk; by eauto].
  destruct (effective_frequency (global_read_frequency_seconds (self m)) s) as [fj|e] eqn:Hfj;
    [|left; unfold process_sensor, bind; rewrite Hid; simpl; rewrite Hk; simpl;
      rewrite get_effective_frequency_spec, Hfj; by eauto].
  destruct (Py.as_num fj) as [f|e] eqn:Hf;
    [|left; unfold process_sensor, bind; rewrite Hid; simpl; rewrite Hk; simpl;
      rewrite get_effective_frequency_spec, Hfj; simpl; rewrite Hf; by eauto].
  destruct (decide (f <= now - last_read (self m) k)) as [Hdue|Hdue].
  - destruct (Py.item s "name") as [name|e] eqn:Hname.
    + right. exists id, k, fj, f, name. eauto 10 using process_sensor_due.
    + left. unfold process_sensor, bind. rewrite Hid. simpl. rewrite Hk. simpl.
      rewrite get_effective_frequency_spec, Hfj. simpl. rewrite Hf. simpl.
      unfold last_read in Hdue. rewrite (proj2 (Z.leb_le _ _) Hdue).
      rewrite Hname. by eauto.
  - left. erewrite process_sensor_not_due by (done || lia). by eauto.
Qed.

#[local] Instance attempt_frame_composable : ComposableSelf attempt_frame.
Proof.
  split; unfold attempt_frame.
  - intros a. by repeat split.
  - intros a1 a2 a3 e1 e2 (L1 & G1 & C1 & F1) (L2 & G2 & C2 & F2).
    repeat split; try congruence. by apply Forall_app.
Qed.

Lemma attempt_read_frame s id : respects (on_self attempt_frame) (attempt_read s id).
Proof.
  unfold attempt_read, read_and_send, driver_name_of. walk.
  all: self_leaves ltac:(repeat split; by repeat constructor).
Qed.

Lemma started_events s o e :
  e ∈ events (started s o) <-> e = EvReadStart s \/ e ∈ events o.
Proof. unfold started. simpl. apply elem_of_cons. Qed.

Lemma attempt_read_starts_nothing s id m s' :
  EvReadStart s' ∉ events (attempt_read s id m).
Proof.
  destruct (attempt_read_frame s id m) as (_ & _ & _ & Hf).
  rewrite Forall_forall in Hf. intros Hin. by apply (Hf _ Hin s').
Qed.

(** The effective frequency, and the decision of the loop body. *)
Lemma effective_frequency_step now s m id k name g :
  Py.item s "id" = Ret id ->
  Py.hash_key id = Ret k ->
  Py.item s "name" = Ret name ->
  Py.as_num (global_read_frequency_seconds (self m)) = Ret g ->
  exists kvs fj,
    s = JObj kvs /\
    get_effective_frequency s m = mkOut (Ret fj) m [] /\
    fj = (if 0 <? g then global_read_frequency_seconds (self m)
          else match Py.assoc "read_frequency" kvs with
               | Some v => v
               | None => JNum 300
               end) /\
    forall f, Py.as_num fj = Ret f ->
      (EvReadStart s ∈ events (process_sensor now s m) <->
       f <= now - last_read (self m) k).
Proof.
  intros Hid Hk Hname Hg.
  destruct s as [| | | | |kvs]; try done. exists kvs.
  assert (exists fj, effective_frequency (global_read_frequency_seconds (self m)) (JObj kvs) = Ret fj /\
            fj = (if 0 <? g then global_read_frequency_seconds (self m)
                  else match Py.assoc "read_frequency" kvs with
                       | Some v => v
                       | None => JNum 300
                       end)) as (fj & Hfj & Hval).
  { unfold effective_frequency. rewrite Hg. destruct (0 <? g); [by eauto|].
    simpl. eexists. split; [done|]. by destruct (Py.assoc _ _). }
  exists fj. split; [done|]. split; [by rewrite get_effective_frequency_spec, Hfj|].
  split; [done|]. intros f Hf.
  destruct (decide (f <= now - last_read (self m) k)) as [Hdue|Hdue].
  - rewrite (process_sensor_due _ _ _ _ _ _ _ _ Hid Hk Hfj Hf Hname Hdue).
    rewrite started_events. by intuition.
  - rewrite (process_sensor_not_due _ _ _ _ _ _ _ Hid Hk Hfj Hf) by lia.
    simpl. rewrite elem_of_nil. by intuition.
Qed.

Lemma attempt_marks_first now s m id k fj f name :
  Py.item s "id" = Ret id ->
  Py.hash_key id = Ret k ->
  effective_frequency (global_read_frequency_seconds (self m)) s = Ret fj ->
  Py.as_num fj = Ret f ->
  Py.item s "name" = Ret name ->
  f <= now - last_read (self m) k ->
  process_sensor now s m = started s (attempt_read s id (mark k now m)) /\
  last_read_times (self (mark k now m)) !! k = Some now /\
  last_read_times (self (after (process_sensor now s m)))
    = <[k := now]> (last_read_times (self m)).
Proof.
  intros Hid Hk Hfj Hf Hname Hdue.
  rewrite (process_sensor_due _ _ _ _ _ _ _ _ Hid Hk Hfj Hf Hname Hdue).
  split; [done|]. split; [apply lookup_insert_eq|].
  destruct (attempt_read_frame s id (mark k now m)) as (Hl & _).
  unfold started. simpl. by rewrite Hl.
Qed.

(** The sampling pass when the gate is open, and when it is not. *)
Lemma process_sensors_open m :
  state (self m) = ONLINE ->
  Py.truthy (config (self m)) = true ->
  process_sensors m =
    process_sensors_at (time_time (world m)).2 (mkMachine (self m) (time_time (world m)).1).
Proof.
  intros Hs Hc. unfold process_sensors, bind, get_self, call. simpl.
  rewrite Hs, Hc. simpl. destruct (time_time (world m)) as [w now]. simpl.
  by destruct (process_sensors_at now _).
Qed.

Lemma process_sensors_shut m :
  state (self m) <> ONLINE \/ Py.truthy (config (self m)) = false ->
  process_sensors m = mkOut (Ret tt) m [].
Proof.
  intros Hgate. unfold process_sensors, bind, get_self, ret. simpl.
  destruct Hgate as [Hs| ->].
  - by rewrite bool_decide_eq_false_2.
  - by rewrite orb_true_r.
Qed.

Lemma process_sensors_gate m :
  (state (self m) = ONLINE /\ Py.truthy (config (self m)) = true) \/
  process_sensors m = mkOut (Ret tt) m [].
Proof.
  destruct (decide (state (self m) = ONLINE)); [|right; apply process_sensors_shut; by left].
  destruct (Py.truthy (config (self m))) eqn:Hc; [by left|].
  right. apply process_sensors_shut. by right.
Qed.

#[local] Instance marks_composable now s : ComposableSelf (marks now s).
Proof.
  split; unfold marks.
  - intros a. split; [done|]. by intros ?%elem_of_nil.
  - intros a1 a2 a3 e1 e2 (K1 & S1) (K2 & S2). split; [by auto|].
    intros [Hin|Hin]%elem_of_app; [|by auto].
    destruct (S1 Hin) as (id & k & ? & ? & ?). eauto 10.
Qed.

Lemma process_sensor_marks now s x : respects (on_self (marks now s)) (process_sensor now x).
Proof.
  intros m. unfold on_self, marks.
  destruct (process_sensor_cases now x m)
    as [(v & ->)|(id & k & fj & f & name & Hid & Hk & Hfj & Hf & Hname & Hdue & Hx)]; simpl.
  - split; [done|]. by intros ?%elem_of_nil.
  - destruct (attempt_marks_first _ _ _ _ _ _ _ _ Hid Hk Hfj Hf Hname Hdue) as (_ & _ & ->).
    rewrite Hx. split.
    + intros k' Hk'. rewrite lookup_insert. by case_decide.
    + intros [[= <-]|Hin]%started_events.
      * exists id, k. by rewrite lookup_insert_eq.
      * by apply attempt_read_starts_nothing in Hin.
Qed.

#[local] Instance in_window_composable now t f g s k : ComposableSelf (in_window now t f g s k).
Proof.
  split; unfold in_window.
  - intros a. split; [done|]. intros _ Hv. split; [done|]. by intros ?%elem_of_nil.
  - intros a1 a2 a3 e1 e2 (G1 & W1) (G2 & W2). split; [congruence|].
    intros Hg Hv. destruct (W1 Hg Hv) as [Hv2 N1].
    destruct W2 as [Hv3 N2]; [congruence | done |].
    split; [done|]. rewrite elem_of_app. tauto.
Qed.

Lemma process_sensor_in_window now t f g s k id fj x :
  Py.item s "id" = Ret id ->
  Py.hash_key id = Ret k ->
  effective_frequency g s = Ret fj ->
  Py.as_num fj = Ret f ->
  t <= now < t + f ->
  respects (on_self (in_window now t f g s k)) (process_sensor now x).
Proof.
  intros Hid Hk Hfj Hf Hwin m. unfold on_self, in_window.
  destruct (process_sensor_cases now x m)
    as [(v & ->)|(id' & k' & fj' & f' & name & Hid' & Hk' & Hfj' & Hf' & Hname & Hdue & Hx)];
    simpl.
  - split; [done|]. intros _ Hv. split; [done|]. by intros ?%elem_of_nil.
  - destruct (attempt_marks_first _ _ _ _ _ _ _ _ Hid' Hk' Hfj' Hf' Hname Hdue) as (_ & _ & Hl).
    rewrite Hl. rewrite Hx. simpl.
    destruct (attempt_read_frame x id' (mark k' now m)) as (_ & -> & _). simpl.
    split; [done|]. intros Hg (v & Hv & Htv). split.
    + rewrite lookup_insert. case_decide; [|by eauto]. exists now. split; [done|lia].
    + intros [[= ->]|Hin]%elem_of_cons; [|by apply attempt_read_starts_nothing in Hin].
      assert (k' = k) as -> by congruence.
      assert (f' = f) as -> by congruence.
      unfold last_read in Hdue. rewrite Hv in Hdue. simpl in Hdue. lia.
Qed.

#[local] Instance keeps_frequency_composable : ComposableSelf keeps_frequency.
Proof. split; unfold keeps_frequency; [done | congruence]. Qed.

Lemma process_sensors_keeps_frequency : respects (on_self keeps_frequency) process_sensors.
Proof.
  apply respects_process_sensors; [apply _ | intros; walk |].
  intros now x _ m. unfold on_self, keeps_frequency.
  destruct (process_sensor_cases now x m)
    as [(v & ->)|(id & k & fj & f & name & _ & _ & _ & _ & _ & _ & ->)]; [done|].
  simpl. by destruct (attempt_read_frame x id (mark k now m)) as (_ & -> & _).
Qed.

Lemma pass_marks m s :
  EvReadStart s ∈ events (process_sensors m) ->
  exists id k,
    Py.item s "id" = Ret id /\ Py.hash_key id = Ret k /\
    last_read_times (self (after (process_sensors m))) !! k = Some (time_time (world m)).2.
Proof.
  destruct (process_sensors_gate m) as [[Hs Hc]| ->]; [|by intros ?%elem_of_nil].
  rewrite (process_sensors_open m Hs Hc).
  pose proof (respects_process_sensors_at (on_self (marks (time_time (world m)).2 s))
    (time_time (world m)).2 (fun x _ => process_sensor_marks _ s x)) as Hr.
  apply Hr.
Qed.

Lemma pass_in_window m s id k fj f t :
  Py.item s "id" = Ret id ->
  Py.hash_key id = Ret k ->
  effective_frequency (global_read_frequency_seconds (self m)) s = Ret fj ->
  Py.as_num fj = Ret f ->
  (exists v, last_read_times (self m) !! k = Some v /\ t <= v) ->
  t <= (time_time (world m)).2 < t + f ->
  (EvReadStart s ∉ events (process_sensors m)) /\
  (exists v, last_read_times (self (after (process_sensors m))) !! k = Some v /\ t <= v).
Proof.
  intros Hid Hk Hfj Hf Hv Hwin.
  destruct (process_sensors_gate m) as [[Hs Hc]| ->];
    [|split; [by intros ?%elem_of_nil | done]].
  rewrite (process_sensors_open m Hs Hc).
  pose proof (respects_process_sensors_at
    (on_self (in_window (time_time (world m)).2 t f
       (global_read_frequency_seconds (self m)) s k))
    (time_time (world m)).2
    (fun x _ => process_sensor_in_window _ _ _ _ _ _ _ _ x Hid Hk Hfj Hf Hwin)) as Hr.
  destruct (Hr (mkMachine (self m) (time_time (world m)).1)) as (_ & Hw).
  destruct Hw as [Hv' Hno]; by eauto.
Qed.


(** *** The pass as a whole, on a well-formed configuration *)

Lemma attempt_read_returns s id m pc dn :
  Py.item s "parser_config" = Ret pc ->
  Py.item pc "driver" = Ret dn ->
  value (attempt_read s id m) = Ret tt.
Proof.
  intros Hpc Hdn. unfold attempt_read, try_except.
  destruct (read_and_send s id m) as [[[]|e] m1 e1]; simpl; [done|].
  unfold driver_name_of, bind. rewrite Hpc. simpl. by rewrite Hdn.
Qed.

Lemma sensor_key_inv s k :
  sensor_key s = Ret k -> exists id, Py.item s "id" = Ret id /\ Py.hash_key id = Ret k.
Proof. unfold sensor_key. destruct (Py.item s "id") as [id|]; [by eauto|done]. Qed.

Lemma frequency_of_inv g s f :
  frequency_of g s = Ret f ->
  exists fj, effective_frequency g s = Ret fj /\ Py.as_num fj = Ret f.
Proof. unfold frequency_of. destruct (effective_frequency g s) as [fj|]; [by eauto|done]. Qed.

(** One turn of the loop on a well-formed sensor. *)
Lemma process_sensor_well_formed now x m k f :
  well_formed (global_read_frequency_seconds (self m)) x ->
  sensor_key x = Ret k ->
  frequency_of (global_read_frequency_seconds (self m)) x = Ret f ->
  let o := process_sensor now x m in
  value o = Ret tt /\
  global_read_frequency_seconds (self (after o)) = global_read_frequency_seconds (self m) /\
  (forall k', k' <> k ->
     last_read_times (self (after o)) !! k' = last_read_times (self m) !! k') /\
  (forall s, EvReadStart s ∈ events o <-> s = x /\ f <= now - last_read (self m) k).
Proof.
  intros (_ & (name & Hname) & _ & (pc & dn & Hpc & Hdn)) Hkey Hfreq.
  destruct (sensor_key_inv _ _ Hkey) as (id & Hid & Hk).
  destruct (frequency_of_inv _ _ _ Hfreq) as (fj & Hfj & Hf).
  destruct (decide (f <= now - last_read (self m) k)) as [Hdue|Hdue]; simpl.
  - destruct (attempt_marks_first _ _ _ _ _ _ _ _ Hid Hk Hfj Hf Hname Hdue) as (Hx & _ & Hl).
    rewrite Hl. rewrite Hx. simpl.
    destruct (attempt_read_frame x id (mark k now m)) as (_ & Hg & _).
    split; [by eapply attempt_read_returns|]. split; [done|]. split.
    + intros k' Hne. by rewrite lookup_insert_ne.
    + intros s. rewrite elem_of_cons. split.
      * intros [[= ->]|Hin]; [done|]. by apply attempt_read_starts_nothing in Hin.
      * intros [-> _]. by left.
  - rewrite (process_sensor_not_due _ _ _ _ _ _ _ Hid Hk Hfj Hf) by lia. simpl.
    split; [done|]. split; [done|]. split; [done|].
    intros s. rewrite elem_of_nil. tauto.
Qed.

(** The loop of the pass on well-formed sensors with distinct ids: the
    sensors it attempts are those whose read is due when the pass begins. *)
Lemma loop_attempts_due now active : forall m,
  (forall x, x ∈ active -> well_formed (global_read_frequency_seconds (self m)) x) ->
  NoDup (sensor_key <$> active) ->
  forall s k f,
    s ∈ active ->
    sensor_key s = Ret k ->
    frequency_of (global_read_frequency_seconds (self m)) s = Ret f ->
    (EvReadStart s ∈ events (for_each active (process_sensor now) m) <->
     f <= now - last_read (self m) k).
Proof.
  induction active as [|x rest IH]; intros m Hwf Hnd s k f Hs Hkey Hfreq.
  { by apply elem_of_nil in Hs. }
  rewrite fmap_cons in Hnd. apply NoDup_cons in Hnd as [Hx Hnd].
  assert (well_formed (global_read_frequency_seconds (self m)) x) as Hwx
    by (apply Hwf; left).
  destruct Hwx as ((kx & Hkx) & Hrest). pose proof Hrest as (_ & (fx & Hfx) & _).
  destruct (process_sensor_well_formed now x m kx fx) as (Hv & Hg & Hl & Hev);
    [by split; eauto | done | done |].
  assert (forall y k', y ∈ rest -> sensor_key y = Ret k' -> k' <> kx) as Hother.
  { intros y k' Hy Hk' ->. apply Hx. rewrite Hkx, <- Hk'. by apply list_elem_of_fmap_2. }
  assert (forall m1, x ∉ rest ->
            EvReadStart x ∉ events (for_each rest (process_sensor now) m1)) as Hnone.
  { intros m1 Hxr Hin.
    assert (respects (all_events (fun e => event_sensor e <> Some x))
              (for_each rest (process_sensor now))) as Hr.
    { apply respects_for_each; [apply _|]. intros y Hy.
      apply process_sensor_tags_own. by intros ->. }
    specialize (Hr m1). unfold all_events in Hr. rewrite Forall_forall in Hr.
    by apply (Hr _ Hin). }
  simpl. unfold bind. destruct (process_sensor now x m) as [v m1 e1]; simpl in *. subst v.
  specialize (IH m1). specialize (Hnone m1).
  destruct (for_each rest (process_sensor now) m1) as [v2 m2 e2]; simpl in *.
  rewrite elem_of_app, Hev.
  assert (x ∉ rest) as Hxr by (intros Hxr; by destruct (Hother x kx Hxr Hkx)).
  apply elem_of_cons in Hs as [->|Hs].
  - assert (k = kx) as -> by congruence. assert (f = fx) as -> by congruence.
    split; [|by auto]. intros [[_ Hdue]|Hin]; [done|]. by destruct (Hnone Hxr).
  - assert (s <> x) as Hne by (by intros ->).
    rewrite IH; [| | done | done | done | by rewrite Hg].
    + unfold last_read. rewrite (Hl k (Hother s k Hs Hkey)). tauto.
    + intros y Hy. rewrite Hg. apply Hwf. by right.
Qed.

Lemma pass_attempts_due m sensors_json sensors active :
  state (self m) = ONLINE ->
  Py.truthy (config (self m)) = true ->
  Py.get_default (config (self m)) "sensors" (JArr []) = Ret sensors_json ->
  Py.iter sensors_json = Ret sensors ->
  active_sensors sensors = Ret active ->
  (forall x, x ∈ active -> well_formed (global_read_frequency_seconds (self m)) x) ->
  NoDup (sensor_key <$> active) ->
  forall s k f,
    s ∈ active ->
    sensor_key s = Ret k ->
    frequency_of (global_read_frequency_seconds (self m)) s = Ret f ->
    (EvReadStart s ∈ events (process_sensors m) <->
     f <= (time_time (world m)).2 - last_read (self m) k).
Proof.
  intros Hs Hc Hsj Hit Hact Hwf Hnd s k f Hin Hkey Hfreq.
  rewrite (process_sensors_open m Hs Hc).
  unfold process_sensors_at, bind, get_self. simpl.
  rewrite Hsj. simpl. rewrite Hit. simpl. rewrite Hact. simpl.
  pose proof (loop_attempts_due (time_time (world m)).2 active
                (mkMachine (self m) (time_time (world m)).1) Hwf Hnd s k f Hin Hkey Hfreq) as Hloop.
  by destruct (for_each active _ _).
Qed.

(** *** What an attempt does: the driver is resolved and invoked *)

Lemma driver_name_of_spec s m pc dn :
  Py.item s "parser_config" = Ret pc ->
  Py.item pc "driver" = Ret dn ->
  driver_name_of s m = mkOut (Ret dn) m [].
Proof.
  intros Hpc Hdn. unfold driver_name_of, bind. rewrite Hpc. simpl. by rewrite Hdn.
Qed.

Lemma load_driver_cached dn kd d m :
  Py.hash_key dn = Ret kd ->
  driver_instances (self m) !! kd = Some d ->
  load_driver dn m = mkOut (Ret (Some d)) m [].
Proof.
  intros Hkd Hd. unfold load_driver, bind, lift, get_self, ret.
  rewrite Hkd. simpl. by rewrite Hd.
Qed.

(** The [try] block asks for the driver the sensor names ... *)
Lemma attempt_read_resolves s id m pc dn :
  Py.item s "parser_config" = Ret pc ->
  Py.item pc "driver" = Ret dn ->
  EvResolve s dn ∈ events (attempt_read s id m).
Proof.
  intros Hpc Hdn. unfold attempt_read. apply elem_of_try_l. unfold read_and_send.
  eapply elem_of_bind_r; rewrite (driver_name_of_spec _ _ _ _ Hpc Hdn); [done|]. simpl.
  apply elem_of_bind_l. simpl. left.
Qed.

(** ... and calls the [read] of the driver it gets, on the sensor's
    ['config']. *)
Lemma attempt_read_invokes s id m pc dn kd d cfg :
  Py.item s "parser_config" = Ret pc ->
  Py.item pc "driver" = Ret dn ->
  Py.hash_key dn = Ret kd ->
  driver_instances (self m) !! kd = Some d ->
  Py.item s "config" = Ret cfg ->
  EvDriverRead s d cfg ∈ events (attempt_read s id m).
Proof.
  intros Hpc Hdn Hkd Hd Hcfg. unfold attempt_read. apply elem_of_try_l.
  unfold read_and_send.
  eapply elem_of_bind_r; rewrite (driver_name_of_spec _ _ _ _ Hpc Hdn); [done|]. simpl.
  eapply elem_of_bind_r; [done|]. simpl.
  eapply elem_of_bind_r; rewrite (load_driver_cached _ _ _ _ Hkd Hd); [done|]. simpl.
  eapply elem_of_bind_r; rewrite Hcfg; [done|]. simpl.
  apply elem_of_bind_l. simpl. left.
Qed.

Lemma send_reading_returns id r m : value (send_reading id r m) = Ret tt.
Proof.
  unfold send_reading, try_except, request_, raise_for_status, bind, call, emit, raise, ret.
  destruct (http (world m) (PostReading id r)) as [w [|code b]]; simpl.
  - by destruct (set_state_spec OFFLINE (mkMachine (self m) w)) as (evs & ->).
  - destruct (is_http_error code); simpl; [|done].
    by destruct (set_state_spec OFFLINE (mkMachine (self m) w)) as (evs & ->).
Qed.

(** The whole [try] statement on a sensor whose driver is in the cache:
    the driver is asked for, its [read] is called on the sensor's
    ['config'] in the world as it is, and what it gives is submitted or
    logged. *)
Lemma attempt_read_cached s id m pc dn kd d cfg :
  Py.item s "parser_config" = Ret pc ->
  Py.item pc "driver" = Ret dn ->
  Py.hash_key dn = Ret kd ->
  driver_instances (self m) !! kd = Some d ->
  Py.item s "config" = Ret cfg ->
  attempt_read s id m =
    preceded [EvResolve s dn; EvDriverRead s d cfg]
      (after_reading id (driver_read (world m) d cfg).2
         (mkMachine (self m) (driver_read (world m) d cfg).1)).
Proof.
  intros Hpc Hdn Hkd Hd Hcfg.
  unfold attempt_read, try_except, read_and_send, bind.
  rewrite (driver_name_of_spec _ _ _ _ Hpc Hdn). simpl.
  rewrite (load_driver_cached _ _ _ _ Hkd Hd). simpl. rewrite Hcfg. simpl.
  unfold call. simpl. destruct (driver_read (world m) d cfg) as [w [r| |e]]; simpl.
  - pose proof (send_reading_returns id r (mkMachine (self m) w)) as Hv.
    destruct (send_reading id r _) as [v m2 e2]; simpl in *. by subst v.
  - done.
  - by rewrite (driver_name_of_spec _ _ _ _ Hpc Hdn).
Qed.

(** An event of the attempt is an event of the loop body exactly when
    the read is due. *)
Lemma process_sensor_attempts now s m id k fj f name e :
  Py.item s "id" = Ret id ->
  Py.hash_key id = Ret k ->
  effective_frequency (global_read_frequency_seconds (self m)) s = Ret fj ->
  Py.as_num fj = Ret f ->
  Py.item s "name" = Ret name ->
  e ∈ events (attempt_read s id (mark k now m)) ->
  (e ∈ events (process_sensor now s m) <-> f <= now - last_read (self m) k).
Proof.
  intros Hid Hk Hfj Hf Hname He.
  destruct (decide (f <= now - last_read (self m) k)) as [Hdue|Hdue].
  - rewrite (process_sensor_due _ _ _ _ _ _ _ _ Hid Hk Hfj Hf Hname Hdue).
    rewrite started_events. by intuition.
  - rewrite (process_sensor_not_due _ _ _ _ _ _ _ Hid Hk Hfj Hf) by lia.
    simpl. rewrite elem_of_nil. by intuition.
Qed.

#[local] Existing Instance cache_grows_composable.

Lemma process_sensor_cache_grows now x :
  respects (on_self cache_grows) (process_sensor now x).
Proof.
  pose proof load_driver_cache_grows. unfold_pass. walk.
  all: self_leaves ltac:(by apply cache_grows_same).
Qed.

Lemma process_sensor_keeps_frequency now x :
  respects (on_self keeps_frequency) (process_sensor now x).
Proof.
  intros m. unfold on_self, keeps_frequency.
  destruct (process_sensor_cases now x m)
    as [(v & ->)|(id & k & fj & f & name & _ & _ & _ & _ & _ & _ & ->)]; [done|].
  simpl. by destruct (attempt_read_frame x id (mark k now m)) as (_ & -> & _).
Qed.

(** The loop of the pass, for any event [e] of a sensor [s] of the list:
    when the loop body on [s] shows [e] exactly when the read of [s] is
    due, in every state [inv] holds of, and the loop body keeps [inv],
    then the loop shows [e] exactly when the read of [s] is due as the
    pass begins.  The turns of the other sensors show no event of [s] and
    leave its timestamp alone. *)
Lemma loop_event_due now e s k f (inv : Agent -> Prop) active : forall m,
  (forall x, x ∈ active -> well_formed (global_read_frequency_seconds (self m)) x) ->
  NoDup (sensor_key <$> active) ->
  s ∈ active ->
  sensor_key s = Ret k ->
  event_sensor e = Some s ->
  inv (self m) ->
  (forall x m', inv (self m') -> inv (self (after (process_sensor now x m')))) ->
  (forall m', inv (self m') ->
     (e ∈ events (process_sensor now s m') <-> f <= now - last_read (self m') k)) ->
  (e ∈ events (for_each active (process_sensor now) m) <->
   f <= now - last_read (self m) k).
Proof.
  induction active as [|x rest IH]; intros m Hwf Hnd Hs Hkey Htag Hinv Hkeep Hstep.
  { by apply elem_of_nil in Hs. }
  rewrite fmap_cons in Hnd. apply NoDup_cons in Hnd as [Hx Hnd].
  assert (well_formed (global_read_frequency_seconds (self m)) x) as Hwx
    by (apply Hwf; left).
  destruct Hwx as ((kx & Hkx) & Hrest). pose proof Hrest as (_ & (fx & Hfx) & _).
  destruct (process_sensor_well_formed now x m kx fx) as (Hv & Hg & Hl & _);
    [by split; eauto | done | done |].
  assert (forall y k', y ∈ rest -> sensor_key y = Ret k' -> k' <> kx) as Hother.
  { intros y k' Hy Hk' ->. apply Hx. rewrite Hkx, <- Hk'. by apply list_elem_of_fmap_2. }
  assert (forall m1, s ∉ rest ->
            e ∉ events (for_each rest (process_sensor now) m1)) as Hnone.
  { intros m1 Hsr Hin.
    assert (respects (all_events (fun e' => event_sensor e' <> Some s))
              (for_each rest (process_sensor now))) as Hr.
    { apply respects_for_each; [apply _|]. intros y Hy.
      apply process_sensor_tags_own. by intros ->. }
    specialize (Hr m1). unfold all_events in Hr. rewrite Forall_forall in Hr.
    by apply (Hr _ Hin). }
  assert (x <> s -> e ∉ events (process_sensor now x m)) as Hforeign.
  { intros Hne Hin. pose proof (process_sensor_tags_own now x s Hne m) as Hr.
    unfold all_events in Hr. rewrite Forall_forall in Hr. by apply (Hr _ Hin). }
  assert (x ∉ rest) as Hxr by (intros Hxr; by destruct (Hother x kx Hxr Hkx)).
  pose proof (Hkeep x m Hinv) as Hinv1.
  apply elem_of_cons in Hs as [->|Hs].
  - pose proof (Hstep m Hinv) as Hhere.
    simpl. unfold bind. destruct (process_sensor now x m) as [v m1 e1]; simpl in *. subst v.
    specialize (Hnone m1 Hxr).
    destruct (for_each rest (process_sensor now) m1) as [v2 m2 e2]; simpl in *.
    rewrite elem_of_app. split; [|by intuition].
    intros [Hin|Hin]; [by apply Hhere|done].
  - assert (x <> s) as Hne by (by intros ->).
    specialize (Hforeign Hne).
    simpl. unfold bind. destruct (process_sensor now x m) as [v m1 e1]; simpl in *. subst v.
    specialize (IH m1).
    destruct (for_each rest (process_sensor now) m1) as [v2 m2 e2]; simpl in *.
    rewrite elem_of_app.
    rewrite IH; [| | done | done | done | done | done | done | done].
    + unfold last_read. rewrite (Hl k (Hother s k Hs Hkey)).
      split; [|by auto]. intros [Hin|Hdue]; done.
    + intros y Hy. rewrite Hg. apply Hwf. by right.
Qed.

Lemma pass_event_due m sensors_json sensors active e s k f (inv : Agent -> Prop) :
  state (self m) = ONLINE ->
  Py.truthy (config (self m)) = true ->
  Py.get_default (config (self m)) "sensors" (JArr []) = Ret sensors_json ->
  Py.iter sensors_json = Ret sensors ->
  active_sensors sensors = Ret active ->
  (forall x, x ∈ active -> well_formed (global_read_frequency_seconds (self m)) x) ->
  NoDup (sensor_key <$> active) ->
  s ∈ active ->
  sensor_key s = Ret k ->
  event_sensor e = Some s ->
  inv (self m) ->
  (forall now x m', inv (self m') -> inv (self (after (process_sensor now x m')))) ->
  (forall now m', inv (self m') ->
     (e ∈ events (process_sensor now s m') <-> f <= now - last_read (self m') k)) ->
  (e ∈ events (process_sensors m) <->
   f <= (time_time (world m)).2 - last_read (self m) k).
Proof.
  intros Hs Hc Hsj Hit Hact Hwf Hnd Hin Hkey Htag Hinv Hkeep Hstep.
  rewrite (process_sensors_open m Hs Hc).
  unfold process_sensors_at, bind, get_self. simpl.
  rewrite Hsj. simpl. rewrite Hit. simpl. rewrite Hact. simpl.
  pose proof (loop_event_due (time_time (world m)).2 e s k f inv active
                (mkMachine (self m) (time_time (world m)).1) Hwf Hnd Hin Hkey Htag Hinv
                (Hkeep _) (Hstep _)) as Hloop.
  by destruct (for_each active _ _).
Qed.

(** What the loop body shows of a well-formed sensor, in every state
    with the global frequency [g]: each of the three events of an attempt
    exactly when the read is due. *)
Lemma process_sensor_attempt_events now s m k f pc dn :
  well_formed (global_read_frequency_seconds (self m)) s ->
  sensor_key s = Ret k ->
  frequency_of (global_read_frequency_seconds (self m)) s = Ret f ->
  Py.item s "parser_config" = Ret pc ->
  Py.item pc "driver" = Ret dn ->
  (EvResolve s dn ∈ events (process_sensor now s m) <-> f <= now - last_read (self m) k) /\
  (forall kd d cfg,
      Py.hash_key dn = Ret kd ->
      driver_instances (self m) !! kd = Some d ->
      Py.item s "config" = Ret cfg ->
      (EvDriverRead s d cfg ∈ events (process_sensor now s m) <->
       f <= now - last_read (self m) k)).
Proof.
  intros (_ & (name & Hname) & _) Hkey Hfreq Hpc Hdn.
  destruct (sensor_key_inv _ _ Hkey) as (id & Hid & Hk).
  destruct (frequency_of_inv _ _ _ Hfreq) as (fj & Hfj & Hf).
  split.
  - apply (process_sensor_attempts _ _ _ _ _ _ _ _ _ Hid Hk Hfj Hf Hname).
    by eapply attempt_read_resolves.
  - intros kd d cfg Hkd Hd Hcfg.
    apply (process_sensor_attempts _ _ _ _ _ _ _ _ _ Hid Hk Hfj Hf Hname).
    by eapply attempt_read_invokes.
Qed.

(** C4. For a sensor with an id and a name, under a numeric global
    frequency [g]: the effective frequency is the global frequency when
    [g > 0], otherwise the sensor's [read_frequency] entry, otherwise 300;
    and the loop body of the sampling pass attempts a read exactly when
    the time since the sensor's recorded timestamp (0 when there is none)
    is at least that frequency.  An attempt is all of: the attempt is
    announced; the driver the sensor names is asked for; and the [read] of
    that driver is called on the sensor's ['config'] (stated for a driver
    that is in the cache).  Each of the three happens exactly when the
    read is due, and when it is not due the loop body does nothing at
    all.  When it is due and the driver is in the cache, the loop body is
    exactly: the timestamp is set, the three events, the driver's [read]
    in the world as it is, and the submission of the value it gave (or
    nothing more, when it gave [None] or raised).  In a whole pass over a configuration whose candidate sensors
    are well formed and have distinct ids, the same holds of every
    candidate, with the time at which the pass begins. *)
Theorem effective_frequency_rule :
  (forall now s m id k name g,
      Py.item s "id" = Ret id ->
      Py.hash_key id = Ret k ->
      Py.item s "name" = Ret name ->
      Py.as_num (global_read_frequency_seconds (self m)) = Ret g ->
      exists kvs fj,
        s = JObj kvs /\
        get_effective_frequency s m = mkOut (Ret fj) m [] /\
        fj = (if 0 <? g then global_read_frequency_seconds (self m)
              else match Py.assoc "read_frequency" kvs with
                   | Some v => v
                   | None => JNum 300
                   end) /\
        forall f, Py.as_num fj = Ret f ->
          (EvReadStart s ∈ events (process_sensor now s m) <->
           f <= now - last_read (self m) k) /\
          (forall pc dn,
              Py.item s "parser_config" = Ret pc ->
              Py.item pc "driver" = Ret dn ->
              (EvResolve s dn ∈ events (process_sensor now s m) <->
               f <= now - last_read (self m) k) /\
              (forall kd d cfg,
                  Py.hash_key dn = Ret kd ->
                  driver_instances (self m) !! kd = Some d ->
                  Py.item s "config" = Ret cfg ->
                  (EvDriverRead s d cfg ∈ events (process_sensor now s m) <->
                   f <= now - last_read (self m) k) /\
                  (f <= now - last_read (self m) k ->
                   process_sensor now s m =
                     preceded [EvReadStart s; EvResolve s dn; EvDriverRead s d cfg]
                       (after_reading id (driver_read (world m) d cfg).2
                          (mkMachine (set_last_read_time k now (self m))
                             (driver_read (world m) d cfg).1))))) /\
          (now - last_read (self m) k < f ->
           process_sensor now s m = mkOut (Ret tt) m [])) /\
  (forall m sensors_json sensors active,
      state (self m) = ONLINE ->
      Py.truthy (config (self m)) = true ->
      Py.get_default (config (self m)) "sensors" (JArr []) = Ret sensors_json ->
      Py.iter sensors_json = Ret sensors ->
      active_sensors sensors = Ret active ->
      (forall x, x ∈ active -> well_formed (global_read_frequency_seconds (self m)) x) ->
      NoDup (sensor_key <$> active) ->
      forall s k f,
        s ∈ active ->
        sensor_key s = Ret k ->
        frequency_of (global_read_frequency_seconds (self m)) s = Ret f ->
        (EvReadStart s ∈ events (process_sensors m) <->
         f <= (time_time (world m)).2 - last_read (self m) k) /\
        (forall pc dn,
            Py.item s "parser_config" = Ret pc ->
            Py.item pc "driver" = Ret dn ->
            (EvResolve s dn ∈ events (process_sensors m) <->
             f <= (time_time (world m)).2 - last_read (self m) k) /\
            (forall kd d cfg,
                Py.hash_key dn = Ret kd ->
                driver_instances (self m) !! kd = Some d ->
                Py.item s "config" = Ret cfg ->
                (EvDriverRead s d cfg ∈ events (process_sensors m) <->
                 f <= (time_time (world m)).2 - last_read (self m) k)))).
Proof.
  split.
  - intros now s m id k name g Hid Hk Hname Hg.
    destruct (effective_frequency_step now s m id k name g Hid Hk Hname Hg)
      as (kvs & fj & Hs & Hget & Hval & Hiff).
    exists kvs, fj. repeat (split; [done|]). intros f Hf.
    assert (effective_frequency (global_read_frequency_seconds (self m)) s = Ret fj) as Hfj.
    { rewrite get_effective_frequency_spec in Hget. by injection Hget. }
    split; [by apply Hiff|]. split.
    + intros pc dn Hpc Hdn. split.
      * apply (process_sensor_attempts _ _ _ _ _ _ _ _ _ Hid Hk Hfj Hf Hname).
        by eapply attempt_read_resolves.
      * intros kd d cfg Hkd Hd Hcfg. split.
        -- apply (process_sensor_attempts _ _ _ _ _ _ _ _ _ Hid Hk Hfj Hf Hname).
           by eapply attempt_read_invokes.
        -- intros Hdue.
           rewrite (process_sensor_due _ _ _ _ _ _ _ _ Hid Hk Hfj Hf Hname Hdue).
           by rewrite (attempt_read_cached s id (mark k now m) pc dn kd d cfg).
    + intros Hearly. by eapply process_sensor_not_due.
  - intros m sensors_json sensors active Hs Hc Hsj Hit Hact Hwf Hnd s k f Hin Hkey Hfreq.
    split; [by eapply pass_attempts_due|].
    intros pc dn Hpc Hdn. split.
    + apply (pass_event_due m sensors_json sensors active (EvResolve s dn) s k f
               (fun a => global_read_frequency_seconds a
                         = global_read_frequency_seconds (self m))); try done.
      * intros now x m' Hg'. by rewrite (process_sensor_keeps_frequency now x m').
      * intros now m' Hg'.
        refine (proj1 (process_sensor_attempt_events now s m' k f pc dn _ _ _ Hpc Hdn));
          rewrite ?Hg'; auto.
    + intros kd d cfg Hkd Hd Hcfg.
      apply (pass_event_due m sensors_json sensors active (EvDriverRead s d cfg) s k f
               (fun a => global_read_frequency_seconds a
                         = global_read_frequency_seconds (self m) /\
                         driver_instances a !! kd = Some d)); try done.
      * intros now x m' [Hg' Hd']. split.
        -- by rewrite (process_sensor_keeps_frequency now x m').
        -- destruct (process_sensor_cache_grows now x m') as (Hsub & _).
           by eapply lookup_weaken.
      * intros now m' [Hg' Hd'].
        refine (proj2 (process_sensor_attempt_events now s m' k f pc dn _ _ _ Hpc Hdn)
                  kd d cfg Hkd Hd' Hcfg); rewrite ?Hg'; auto.
Qed.

Lemma due_sensor_loads_uncached_driver now s m id k fj f name pc dn kd :
  Py.item s "id" = Ret id ->
  Py.hash_key id = Ret k ->
  effective_frequency (global_read_frequency_seconds (self m)) s = Ret fj ->
  Py.as_num fj = Ret f ->
  Py.item s "name" = Ret name ->
  f <= now - last_read (self m) k ->
  Py.item s "parser_config" = Ret pc ->
  Py.item pc "driver" = Ret dn ->
  Py.hash_key dn = Ret kd ->
  driver_instances (self m) !! kd = None ->
  EvExecModule (Py.str dn) ∈ events (process_sensor now s m).
Proof.
  intros Hid Hk Hfj Hf Hname Hdue Hpc Hdn Hkd Hnone.
  rewrite (process_sensor_due _ _ _ _ _ _ _ _ Hid Hk Hfj Hf Hname Hdue).
  apply started_events. right.
  unfold attempt_read. apply elem_of_try_l. unfold read_and_send.
  assert (driver_name_of s (mark k now m) = mkOut (Ret dn) (mark k now m) []) as Hname_out.
  { unfold driver_name_of, bind. rewrite Hpc. simpl. by rewrite Hdn. }
  eapply elem_of_bind_r; [by rewrite Hname_out|]. rewrite Hname_out. simpl.
  eapply elem_of_bind_r; [done|]. simpl. apply elem_of_bind_l.
  destruct (load_driver_cases dn (mark k now m))
    as [(e & He & _)|[(k' & d & Hk' & Hd & _)|[(k' & w & Hk' & _ & ->)|(k' & w & d & Hk' & _ & ->)]]];
    try congruence.
  - assert (k' = kd) as -> by congruence. simpl in Hd. congruence.
  - by left.
  - by left.
Qed.

(** C10. A call of [load_driver] that returns [None] leaves the cache as
    it was, and the name stays absent from it, so the next call with that
    name (from any state with that cache) loads the driver file again.
    For a hashable name [load_driver] never raises: a failure to locate,
    load or construct the driver is the result [None].  And from
    [__init__] on, in any run of the main loop and in any sequence of the
    loop's activities, every entry of the cache is an instance that a
    constructor call returned under that name.  Whenever a read is due on
    a sensor that names a driver absent from the cache, the pass loads
    the driver file. *)
Theorem failed_resolution_not_cached :
  (forall m name,
      value (load_driver name m) = Ret None ->
      driver_instances (self (after (load_driver name m))) = driver_instances (self m) /\
      forall m',
        driver_instances (self m') = driver_instances (self (after (load_driver name m))) ->
        exists evs, events (load_driver name m') = EvExecModule (Py.str name) :: evs) /\
  (forall m name k,
      Py.hash_key name = Ret k ->
      exists r, value (load_driver name m) = Ret r) /\
  (forall w n k d,
      driver_instances (self (after (start n (mkMachine Agent_init w)))) !! k = Some d ->
      EvConstruct k d ∈ events (start n (mkMachine Agent_init w))) /\
  (forall w acts k d,
      driver_instances (self (after (perform_all acts (mkMachine Agent_init w)))) !! k = Some d ->
      EvConstruct k d ∈ events (perform_all acts (mkMachine Agent_init w))) /\
  (forall now s m id k fj f name pc dn kd,
      Py.item s "id" = Ret id ->
      Py.hash_key id = Ret k ->
      effective_frequency (global_read_frequency_seconds (self m)) s = Ret fj ->
      Py.as_num fj = Ret f ->
      Py.item s "name" = Ret name ->
      f <= now - last_read (self m) k ->
      Py.item s "parser_config" = Ret pc ->
      Py.item pc "driver" = Ret dn ->
      Py.hash_key dn = Ret kd ->
      driver_instances (self m) !! kd = None ->
      EvExecModule (Py.str dn) ∈ events (process_sensor now s m)).
Proof.
  split; [|split; [|split; [|split]]]; [| | | |apply due_sensor_loads_uncached_driver].
  - intros m name Hv.
    destruct (load_driver_cases name m)
      as [(e & _ & Hl)|[(k & d & _ & _ & Hl)|[(k & w & Hk & Hn & Hl)|(k & w & d & _ & _ & Hl)]]];
      rewrite Hl in Hv |- *; simpl in *; try done.
    split; [done|]. intros m' Hm'.
    destruct (load_driver_cases name m')
      as [(e & He & _)|[(k' & d' & Hk' & Hd' & _)|[(k' & w' & _ & _ & ->)|(k' & w' & d' & _ & _ & ->)]]];
      simpl; eauto; congruence.
  - intros m name k Hk.
    destruct (load_driver_cases name m)
      as [(e & He & _)|[(k' & d & _ & _ & ->)|[(k' & w & _ & _ & ->)|(k' & w & d & _ & _ & ->)]]];
      simpl; eauto; congruence.
  - intros w n k d Hd.
    destruct (start_cache_grows n (mkMachine Agent_init w)) as (_ & Hnew & _).
    destruct (Hnew k d Hd) as [Hinit|]; [|done]. simpl in Hinit. by rewrite lookup_empty in Hinit.
  - intros w acts k d Hd.
    destruct (perform_all_cache_grows acts (mkMachine Agent_init w)) as (_ & Hnew & _).
    destruct (Hnew k d Hd) as [Hinit|]; [|done]. simpl in Hinit. by rewrite lookup_empty in Hinit.
Qed.

End scheduling.

(** ** The theorems at concrete inputs *)

Section runs.
Import Scripted DfrobotUlt.
#[local] Existing Instance Scripted.host.

(** C1. The code breaks the claim: the server answers 200 with the JSON
    object [{}]; [fetch_config] has already replaced the configuration
    when its log line looks up ['sensors'] (the readers of the
    configuration use [.get('sensors', [])]), and the [KeyError] is not a
    [RequestException]: it reaches the caller, the state stays
    CONFIGURING, not OFFLINE, and the previous configuration is gone. *)
Lemma fetch_config_raises_on_incomplete_body :
  let m := online sample_config (serving (JObj [])) in
  value (fetch_config m) = Raise KeyError /\
  state (self (after (fetch_config m))) = CONFIGURING /\
  config (self (after (fetch_config m))) = JObj [] /\
  config (self m) <> JObj [].
Proof. vm_compute. by repeat split. Qed.

Lemma fetch_config_failure_witness :
  let m := online sample_config (with_config_reply (Reply 503 (BodyJson JNull)) quiet) in
  request_failure (http (world m) GetConfig).2 = true /\
  value (fetch_config m) = Ret tt /\
  state (self (after (fetch_config m))) = OFFLINE /\
  config (self (after (fetch_config m))) = sample_config.
Proof.
  intros m. split; [reflexivity|].
  destruct (fetch_config_failure m eq_refl) as (Hv & Hs & Hc & _).
  by repeat split.
Defined.


Lemma binary_frame_parser_witness :
  read (JObj [("port", JStr "/dev/ttyUSB0")])
       (Some [Chunk [x01; xff]; Chunk []; Chunk [x01; x2c; x2c]])
    = Ret (Some (Q2Qc 30)) /\
  scan [xff; x01; x2c; x00; xff; x01; x2c; x2c] = scan [x01; x2c; x00; xff; x01; x2c; x2c] /\
  scan [xff; x01; x2c; x2c] = inl (distance_cm 300).
Proof.
  destruct binary_frame_parser as (Hread & _ & _ & _ & _ & _ & Hskip & Hframe).
  split; [|split].
  - apply (Hread _ (JStr "/dev/ttyUSB0") [[x01; xff]; []; [x01; x2c; x2c]]); reflexivity.
  - apply Hskip; [reflexivity | vm_compute; discriminate].
  - apply (Hframe xff x01 x2c x2c []); reflexivity.
Defined.

Lemma effective_frequency_rule_witness :
  let m := mkMachine (with_lidar_driver (online_with two_sensor_config)) quiet in
  let dn := JStr "dfrobot_ult" in
  let cfg := JObj [("port", JStr "/dev/ttyUSB0")] in
  (EvResolve sample_sensor dn ∈ events (process_sensor 1000 sample_sensor m) /\
   EvDriverRead sample_sensor lidar_driver cfg ∈ events (process_sensor 1000 sample_sensor m) /\
   process_sensor 1000 sample_sensor m =
     preceded [EvReadStart sample_sensor; EvResolve sample_sensor dn;
               EvDriverRead sample_sensor lidar_driver cfg]
       (send_reading (JNum 1) 300 (mark (Py.KInt 1) 1000 m)) /\
   process_sensor 1000 slow_sensor m = mkOut (Ret tt) m []) /\
  (EvReadStart sample_sensor ∈ events (process_sensors m) /\
   EvResolve sample_sensor dn ∈ events (process_sensors m) /\
   EvDriverRead sample_sensor lidar_driver cfg ∈ events (process_sensors m)) /\
  ((EvReadStart slow_sensor ∉ events (process_sensors m)) /\
   (EvResolve slow_sensor dn ∉ events (process_sensors m)) /\
   (EvDriverRead slow_sensor lidar_driver cfg ∉ events (process_sensors m))).
Proof.
  intros m dn cfg. destruct effective_frequency_rule as [Hstep Hpass].
  assert (forall x, x ∈ [sample_sensor; slow_sensor] ->
            well_formed (global_read_frequency_seconds (self m)) x) as Hwf.
  { intros x [->|[->|[]%elem_of_nil]%elem_of_cons]%elem_of_cons;
      unfold well_formed; by eauto 10. }
  assert (NoDup (sensor_key <$> [sample_sensor; slow_sensor])) as Hnd.
  { change (NoDup [Ret (Py.KInt 1); Ret (Py.KInt 4)]).
    apply NoDup_cons. split; [|apply NoDup_singleton].
    intros [=]%list_elem_of_singleton. }
  pose proof (Hpass m (JArr [sample_sensor; slow_sensor]) [sample_sensor; slow_sensor]
                [sample_sensor; slow_sensor] eq_refl eq_refl eq_refl eq_refl eq_refl Hwf Hnd)
    as Hrule.
  split; [|split].
  - destruct (Hstep 1000 sample_sensor m (JNum 1) (Py.KInt 1) (JStr "lidar") 0
                eq_refl eq_refl eq_refl eq_refl) as (kvs & fj & Hs & _ & Hfj & Hbody).
    injection Hs as <-. subst fj.
    destruct (Hbody 60 eq_refl) as (_ & Hattempt & _).
    destruct (Hattempt (JObj [("driver", dn)]) dn eq_refl eq_refl) as [Hres Hread].
    split; [apply Hres; vm_compute; discriminate|].
    destruct (Hread (Py.KStr "dfrobot_ult") lidar_driver cfg eq_refl eq_refl eq_refl)
      as [Hcall Hexact].
    split; [apply Hcall; vm_compute; discriminate|].
    split; [apply Hexact; vm_compute; discriminate|].
    destruct (Hstep 1000 slow_sensor m (JNum 4) (Py.KInt 4) (JStr "lidar") 0
                eq_refl eq_refl eq_refl eq_refl) as (kvs & fj & Hs & _ & Hfj & Hslow).
    injection Hs as <-. subst fj.
    destruct (Hslow 5000 eq_refl) as (_ & _ & Hearly). apply Hearly. reflexivity.
  - destruct (Hrule sample_sensor (Py.KInt 1) 60) as [Hstart Hattempt];
      [by left | reflexivity | reflexivity |].
    destruct (Hattempt (JObj [("driver", dn)]) dn eq_refl eq_refl) as [Hres Hread].
    split; [apply Hstart; vm_compute; discriminate|].
    split; [apply Hres; vm_compute; discriminate|].
    apply (Hread (Py.KStr "dfrobot_ult") lidar_driver cfg eq_refl eq_refl eq_refl).
    vm_compute. discriminate.
  - destruct (Hrule slow_sensor (Py.KInt 4) 5000) as [Hstart Hattempt];
      [by right; left | reflexivity | reflexivity |].
    destruct (Hattempt (JObj [("driver", dn)]) dn eq_refl eq_refl) as [Hres Hread].
    split; [intros Hin%Hstart; by apply Hin|].
    split; [intros Hin%Hres; by apply Hin|].
    intros Hin%(Hread (Py.KStr "dfrobot_ult") lidar_driver cfg eq_refl eq_refl eq_refl).
    by apply Hin.
Defined.


Lemma load_driver_same_instance_witness :
  let m := fresh quiet in
  let name := JStr "dfrobot_ult" in
  value (load_driver name m) = Ret (Some "DfrobotUltDriver") /\
  let m' := after (perform_all [SensorPass; ConfigFetch] (after (load_driver name m))) in
  load_driver name m' = mkOut (Ret (Some "DfrobotUltDriver")) m' [].
Proof.
  intros m name. split; [reflexivity|].
  apply (proj1 load_driver_same_instance m name "DfrobotUltDriver" eq_refl).
Defined.

Lemma inactive_or_virtual_never_sampled_witness :
  let m := online (JObj [("sensors", JArr [idle_sensor; sample_sensor])]) quiet in
  (exists a, Py.get idle_sensor "is_active" = Ret a /\ Py.truthy a = false) /\
  forall e, e ∈ events (process_sensors m) -> event_sensor e <> Some idle_sensor.
Proof.
  intros m.
  assert (exists a, Py.get idle_sensor "is_active" = Ret a /\ Py.truthy a = false) as Hidle
    by (by exists (JBool false)).
  split; [done|].
  apply (inactive_or_virtual_never_sampled m idle_sensor (or_introl Hidle)).
Defined.

Lemma execute_command_reports_once_witness :
  let m := online sample_config quiet in
  Py.item broken_capture "command_type" = Ret (JStr "CAPTURE_IMAGE") /\
  Py.item broken_capture "id" = Ret (JNum 8) /\
  value (execute_command broken_capture m) = Ret tt /\
  filter (fun e => is_status_report e = true) (events (execute_command broken_capture m))
    = [EvHttp (PostStatus (JNum 8) "failed") (Reply 200 (BodyJson (JObj [])))].
Proof.
  intros m. split; [reflexivity|]. split; [reflexivity|].
  destruct (execute_command_reports_once broken_capture (JStr "CAPTURE_IMAGE") (JNum 8) m
              eq_refl eq_refl) as (Hv & _).
  split; [done|]. by vm_compute.
Defined.

Lemma unknown_command_reports_failed_witness :
  let m := online sample_config quiet in
  Py.item reboot_command "command_type" = Ret (JStr "REBOOT") /\
  Py.item reboot_command "id" = Ret (JNum 7) /\
  JStr "REBOOT" <> JStr "CAPTURE_IMAGE" /\
  JStr "REBOOT" <> JStr "ANALYZE_SNOW_DEPTH" /\
  exists reply, events (execute_command reboot_command m)
                = [EvHttp (PostStatus (JNum 7) "failed") reply].
Proof.
  intros m. do 4 (split; [done|]).
  apply (unknown_command_reports_failed reboot_command (JStr "REBOOT") (JNum 7) m);
    done.
Defined.

Lemma failed_resolution_not_cached_witness :
  let m := fresh quiet in
  let name := JStr "hx711_load_cell" in
  let run := perform_all [ConfigFetch; SensorPass] (fresh (serving sample_config)) in
  value (load_driver name m) = Ret None /\
  driver_instances (self (after (load_driver name m))) = driver_instances (self m) /\
  (exists evs, events (load_driver name (after (load_driver name m)))
               = EvExecModule "hx711_load_cell" :: evs) /\
  (exists r, value (load_driver name m) = Ret r) /\
  driver_instances (self (after run)) !! Py.KStr "dfrobot_ult" = Some "DfrobotUltDriver" /\
  EvConstruct (Py.KStr "dfrobot_ult") "DfrobotUltDriver" ∈ events run /\
  EvConstruct (Py.KStr "dfrobot_ult") "DfrobotUltDriver"
    ∈ events (start 1 (fresh (serving sample_config))) /\
  EvExecModule "dfrobot_ult"
    ∈ events (process_sensor 1000 sample_sensor (online sample_config quiet)).
Proof.
  intros m name run.
  destruct failed_resolution_not_cached as (Hnone & Hret & Hstart & Hacts & Hdue).
  destruct (Hnone m name eq_refl) as [Hsame Hagain].
  split; [reflexivity|]. split; [done|]. split; [by apply Hagain|].
  split; [by apply (Hret m name (Py.KStr "hx711_load_cell"))|].
  split; [by vm_compute|]. split; [|split].
  - apply (Hacts (serving sample_config) [ConfigFetch; SensorPass]). by vm_compute.
  - apply (Hstart (serving sample_config) 1%nat). by vm_compute.
  - apply (Hdue 1000 sample_sensor (online sample_config quiet) (JNum 1) (Py.KInt 1)
             (JNum 60) 60 (JStr "lidar") (JObj [("driver", JStr "dfrobot_ult")])
             (JStr "dfrobot_ult") (Py.KStr "dfrobot_ult")); by vm_compute.
Defined.

End runs.


(** * More properties of the agent *)

(** ** Configuration fetch: the outcomes *)

Section fetch_more.
Context {H : Host}.

Lemma fetch_config_success_out m w code j g sensors cameras ns nc :
  http (world m) GetConfig = (w, Reply code (BodyJson j)) ->
  is_http_error code = false ->
  Py.get_default j "global_read_frequency_seconds" (JNum 0) = Ret g ->
  Py.item j "sensors" = Ret sensors ->
  Py.len sensors = Ret ns ->
  Py.item j "cameras" = Ret cameras ->
  Py.len cameras = Ret nc ->
  exists evs,
    fetch_config m =
      mkOut (Ret tt)
        (mkMachine
           {| state := ONLINE;
              config := j;
              driver_instances := driver_instances (self m);
              last_read_times := last_read_times (self m);
              global_read_frequency_seconds := g |} w)
        evs.
Proof.
  intros Hhttp Hcode Hg Hs Hns Hc Hnc. unfold fetch_config.
  unfold bind at 1. destruct (set_state_spec CONFIGURING m) as (ev0 & ->).
  unfold try_except, request_, raise_for_status, response_json, bind, call, emit, raise, ret,
    modify_self.
  simpl. rewrite Hhttp. simpl. rewrite Hcode. simpl.
  rewrite Hg. simpl. rewrite Hs. simpl. rewrite Hns. simpl. rewrite Hc. simpl.
  rewrite Hnc. simpl. by eauto.
Qed.

(** X1. A configuration fetch that gets a reply without an error status,
    whose body is an object with a ['sensors'] and a ['cameras'] entry
    that have a length, returns normally in the state ONLINE; the
    configuration is the body, the global frequency is the body's entry
    (0 when it has none), and the timestamps and the driver cache are
    what they were. *)
Theorem fetch_config_success m w code j g sensors cameras ns nc :
  http (world m) GetConfig = (w, Reply code (BodyJson j)) ->
  is_http_error code = false ->
  Py.get_default j "global_read_frequency_seconds" (JNum 0) = Ret g ->
  Py.item j "sensors" = Ret sensors ->
  Py.len sensors = Ret ns ->
  Py.item j "cameras" = Ret cameras ->
  Py.len cameras = Ret nc ->
  let o := fetch_config m in
  value o = Ret tt /\
  state (self (after o)) = ONLINE /\
  config (self (after o)) = j /\
  global_read_frequency_seconds (self (after o)) = g /\
  last_read_times (self (after o)) = last_read_times (self m) /\
  driver_instances (self (after o)) = driver_instances (self m).
Proof.
  intros Hhttp Hcode Hg Hs Hns Hc Hnc.
  destruct (fetch_config_success_out m w code j g sensors cameras ns nc) as (evs & ->); done.
Qed.

(** X2. However a configuration fetch ends, it sends exactly one request,
    the one for the configuration, and leaves the timestamps and the
    driver cache alone.  When it returns, the state is ONLINE or OFFLINE;
    when it raises, the exception is none of [requests]' and the state is
    left at CONFIGURING. *)
Theorem fetch_config_outcomes m :
  let o := fetch_config m in
  last_read_times (self (after o)) = last_read_times (self m) /\
  driver_instances (self (after o)) = driver_instances (self m) /\
  (exists r, filter (fun e => is_http e = true) (events o) = [EvHttp GetConfig r]) /\
  match value o with
  | Ret _ => state (self (after o)) = ONLINE \/ state (self (after o)) = OFFLINE
  | Raise e => is_request_exception e = false /\ state (self (after o)) = CONFIGURING
  end.
Proof.
  unfold fetch_config, try_except, request_, raise_for_status, response_json, _set_state,
    bind, call, emit, raise, ret, lift, get_self, modify_self.
  repeat (simpl; destruct_inner); simpl; try done.
  all: repeat split; try done; try (by eauto); try (by left); try (by right).
Qed.

End fetch_more.

(** ** The state log *)

Section state_log.
Context {H : Host}.

Lemma replay_app s e1 e2 : replay s (e1 ++ e2) = replay (replay s e1) e2.
Proof.
  revert s. induction e1 as [|e e1 IH]; intros s; [done|].
  destruct e; simpl; apply IH.
Qed.

Lemma changes_only_app s e1 e2 :
  changes_only s (e1 ++ e2) = changes_only s e1 && changes_only (replay s e1) e2.
Proof.
  revert s. induction e1 as [|e e1 IH]; intros s; [done|].
  destruct e; simpl; rewrite ?IH; try done. by rewrite andb_assoc.
Qed.

#[local] Instance state_logged_composable : ComposableSelf state_logged.
Proof.
  split; unfold state_logged.
  - done.
  - intros a1 a2 a3 e1 e2 [R1 C1] [R2 C2].
    rewrite replay_app, changes_only_app, R1, C1. by split.
Qed.

Lemma set_state_logged s : respects (on_self state_logged) (_set_state s).
Proof.
  intros m. unfold _set_state, bind, get_self, modify_self, emit, ret, on_self, state_logged.
  destruct (decide (state (self m) = s)) as [Heq|Hne]; simpl; [done|].
  split; [done|]. by rewrite bool_decide_eq_false_2.
Qed.

Ltac logged_leaves := self_leaves ltac:(by split).

Lemma perform_state_logged a : respects (on_self state_logged) (perform a).
Proof.
  pose proof set_state_logged.
  destruct a; simpl.
  - unfold fetch_config. walk. all: logged_leaves.
  - unfold check_for_commands. walk. all: logged_leaves.
  - apply respects_process_sensors; [apply _ | intros; walk |].
    intros now x _. unfold_pass. walk. all: logged_leaves.
Qed.

Lemma main_loop_state_logged n : forall t1 t2,
  respects (on_self state_logged) (main_loop n t1 t2).
Proof.
  pose proof (perform_state_logged ConfigFetch). pose proof (perform_state_logged CommandPoll).
  pose proof (perform_state_logged SensorPass).
  induction n as [|n IH]; intros t1 t2; simpl; walk.
Qed.

(** X3. In every run of the main loop and in every sequence of the
    loop's activities, from any state, the state-change lines of the log
    account for the state: replaying them from the state at the beginning
    gives the state at the end, and no line repeats the state it is
    logged in (each transition is logged once, a transition to the
    current state not at all). *)
Theorem state_changes_logged_once :
  (forall n m,
      replay (state (self m)) (events (start n m)) = state (self (after (start n m))) /\
      changes_only (state (self m)) (events (start n m)) = true) /\
  (forall acts m,
      replay (state (self m)) (events (perform_all acts m))
        = state (self (after (perform_all acts m))) /\
      changes_only (state (self m)) (events (perform_all acts m)) = true).
Proof.
  split.
  - intros n m.
    assert (respects (on_self state_logged) (start n)) as Hr; [|apply Hr].
    pose proof (perform_state_logged ConfigFetch). pose proof main_loop_state_logged.
    unfold start. walk.
  - intros acts m.
    assert (respects (on_self state_logged) (perform_all acts)) as Hr; [|apply Hr].
    pose proof perform_state_logged. unfold perform_all. walk.
Qed.

End state_log.

(** ** Command polling *)

Section commands_more.
Context {H : Host}.

#[local] Instance same_self_composable : ComposableSelf same_self.
Proof. split; unfold same_self; [done | congruence]. Qed.

Lemma check_for_commands_same_self : respects (on_self same_self) check_for_commands.
Proof. unfold check_for_commands. walk. all: self_leaves ltac:(done). Qed.

Lemma execute_command_same_self command : respects (on_self same_self) (execute_command command).
Proof. unfold execute_command. walk. all: self_leaves ltac:(done). Qed.

Lemma reports_app e1 e2 : reports (e1 ++ e2) = reports e1 ++ reports e2.
Proof.
  induction e1 as [|e e1 IH]; [done|].
  destruct e as [| [] | | | | | |]; simpl; by rewrite ?IH.
Qed.

Lemma reports_none evs :
  Forall (fun e => is_status_report e = false) evs -> reports evs = [].
Proof.
  induction 1 as [|e evs He _ IH]; [done|].
  destruct e as [| [] | | | | | |]; simpl in *; done.
Qed.

(** What [execute_command] does on a command with a type and an id: one
    report, whose status the dispatch decides. *)
Lemma execute_command_report command command_type id m :
  Py.item command "command_type" = Ret command_type ->
  Py.item command "id" = Ret id ->
  value (execute_command command m) = Ret tt /\
  reports (events (execute_command command m))
    = [(id, match value (dispatch command m) with
            | Ret success => status_of success
            | Raise _ => "failed"
            end)].
Proof.
  intros Hct Hid.
  pose proof (reports_none _ (dispatch_no_report command m)) as Hnone.
  unfold execute_command. rewrite Hct, Hid.
  unfold try_except, bind, lift, ret. simpl.
  destruct (dispatch command m) as [[success|e] m1 ev1]; simpl in *.
  - destruct (update_command_status_spec id (status_of success) m1) as (reply & w & ->).
    simpl. split; [done|]. by rewrite reports_app, Hnone.
  - destruct (update_command_status_spec id "failed" m1) as (reply & w & ->).
    simpl. split; [done|]. by rewrite reports_app, Hnone.
Qed.

Lemma item_raises x k e : Py.item x k = Raise e -> is_request_exception e = false.
Proof.
  unfold Py.item. destruct x; try by intros [= <-].
  destruct (Py.assoc k kvs); [done | by intros [= <-]].
Qed.

(** The poll once the list of commands is there. *)
Lemma check_for_commands_run m w c cmds :
  state (self m) = ONLINE ->
  http (world m) GetCommands = (w, Reply 200 (BodyJson (JArr (c :: cmds)))) ->
  let o := for_each (c :: cmds) execute_command (mkMachine (self m) w) in
  check_for_commands m
    = mkOut
        match value o with
        | Ret u => Ret u
        | Raise e => if is_request_exception e then Ret tt else Raise e
        end
        (after o)
        (EvHttp GetCommands (Reply 200 (BodyJson (JArr (c :: cmds)))) :: events o).
Proof.
  intros Hs Hhttp o.
  unfold check_for_commands, try_except, request_, response_json, bind, get_self, call, emit.
  rewrite Hs. simpl. rewrite Hhttp. simpl.
  change ((execute_command c;; for_each cmds execute_command) (mkMachine (self m) w)) with o.
  destruct o as [[[]|e] m1 e1]; simpl; [done|].
  destruct (is_request_exception e); simpl; [|done]. by rewrite app_nil_r.
Qed.

Lemma execute_all_proper cmds : forall m,
  Forall proper_command cmds ->
  value (for_each cmds execute_command m) = Ret tt /\
  Forall2 (fun c r => Py.item c "id" = Ret r.1) cmds
    (reports (events (for_each cmds execute_command m))).
Proof.
  induction cmds as [|c cmds IH]; intros m Hall; simpl.
  { split; [done | constructor]. }
  apply Forall_cons in Hall as [(ct & id & Hct & Hid) Hall].
  destruct (execute_command_report c ct id m Hct Hid) as [Hv Hr].
  unfold bind. destruct (execute_command c m) as [v m1 e1]; simpl in *. subst v.
  destruct (IH m1 Hall) as [Hv' Hr'].
  destruct (for_each cmds execute_command m1) as [v2 m2 e2]; simpl in *.
  split; [done|]. rewrite reports_app, Hr. simpl. by constructor.
Qed.

Lemma execute_until_improper pre : forall m bad post e,
  Forall proper_command pre ->
  (Py.item bad "command_type" = Raise e \/
   (exists command_type, Py.item bad "command_type" = Ret command_type /\
                         Py.item bad "id" = Raise e)) ->
  value (for_each (pre ++ bad :: post) execute_command m) = Raise e /\
  Forall2 (fun c r => Py.item c "id" = Ret r.1) pre
    (reports (events (for_each (pre ++ bad :: post) execute_command m))).
Proof.
  induction pre as [|c pre IH]; intros m bad post e Hall Hbad; simpl.
  - unfold bind, execute_command.
    destruct Hbad as [Hct|(ct & Hct & Hid)]; rewrite Hct; simpl;
      [|unfold bind; simpl; rewrite Hid; simpl]; split; [done | constructor | done | constructor].
  - apply Forall_cons in Hall as [(ct & id & Hct & Hid) Hall].
    destruct (execute_command_report c ct id m Hct Hid) as [Hv Hr].
    unfold bind. destruct (execute_command c m) as [v m1 e1]; simpl in *. subst v.
    destruct (IH m1 bad post e Hall Hbad) as [Hv' Hr'].
    destruct (for_each (pre ++ bad :: post) execute_command m1) as [v2 m2 e2]; simpl in *.
    split; [done|]. rewrite reports_app, Hr. simpl. by constructor.
Qed.

(** X4. A command poll changes no attribute of the agent, however it
    ends: in particular a poll that fails does not touch the
    connectivity state. *)
Theorem command_poll_keeps_self m :
  self (after (check_for_commands m)) = self m.
Proof. apply check_for_commands_same_self. Qed.

(** X5. Outside ONLINE a command poll does nothing at all.  In the state
    ONLINE a poll that gets no reply, a status other than 200, a falsy
    body (an empty list) or a body that is not JSON makes its one request
    and returns normally: nothing is executed, nothing is reported. *)
Theorem command_poll_without_commands m :
  (state (self m) <> ONLINE -> check_for_commands m = mkOut (Ret tt) m []) /\
  (forall w r,
      state (self m) = ONLINE ->
      http (world m) GetCommands = (w, r) ->
      no_commands r = true ->
      check_for_commands m = mkOut (Ret tt) (mkMachine (self m) w) [EvHttp GetCommands r]).
Proof.
  split; [intros Hs; by destruct (gate_closed m Hs)|].
  intros w r Hs Hhttp Hr.
  unfold check_for_commands, bind at 1, get_self. rewrite Hs. simpl.
  unfold try_except, request_, response_json, bind, call, emit, raise, ret. simpl.
  rewrite Hhttp. simpl.
  destruct r as [|code [j|e]]; simpl in *; [done| |].
  - destruct code as [|p|p]; try done.
    do 8 (destruct p as [p|p|]; try done). simpl.
    by apply negb_true_iff in Hr as ->.
  - destruct code as [|p|p]; try done.
    do 8 (destruct p as [p|p|]; try done). simpl. by rewrite Hr.
Qed.

(** X6. In the state ONLINE, on a reply 200 with a non-empty list of
    commands that each carry a type and an id, the poll returns normally
    and reports a status for every command of the list, one each, in the
    order of the list. *)
Theorem command_poll_reports_each m w c cmds :
  state (self m) = ONLINE ->
  http (world m) GetCommands = (w, Reply 200 (BodyJson (JArr (c :: cmds)))) ->
  Forall proper_command (c :: cmds) ->
  value (check_for_commands m) = Ret tt /\
  Forall2 (fun c r => Py.item c "id" = Ret r.1) (c :: cmds)
    (reports (events (check_for_commands m))).
Proof.
  intros Hs Hhttp Hall.
  rewrite (check_for_commands_run m w c cmds Hs Hhttp). simpl.
  destruct (execute_all_proper (c :: cmds) (mkMachine (self m) w) Hall) as [Hv Hr].
  simpl in Hv, Hr. by rewrite Hv.
Qed.

(** X7. A command without a ['command_type'] or without an ['id'] ends
    the poll with the exception of the lookup ([KeyError], or [TypeError]
    for a command that is no object): it reaches the caller, the commands
    before it have been executed and reported, the command itself and
    those after it are neither executed nor reported. *)
Theorem command_poll_stops_at_improper m w pre bad post e :
  state (self m) = ONLINE ->
  http (world m) GetCommands = (w, Reply 200 (BodyJson (JArr (pre ++ bad :: post)))) ->
  Forall proper_command pre ->
  (Py.item bad "command_type" = Raise e \/
   (exists command_type, Py.item bad "command_type" = Ret command_type /\
                         Py.item bad "id" = Raise e)) ->
  value (check_for_commands m) = Raise e /\
  Forall2 (fun c r => Py.item c "id" = Ret r.1) pre
    (reports (events (check_for_commands m))).
Proof.
  intros Hs Hhttp Hall Hbad.
  assert (is_request_exception e = false) as He
    by (destruct Hbad as [?|(? & _ & ?)]; by eapply item_raises).
  destruct (pre ++ bad :: post) as [|c cmds] eqn:Hlist; [by destruct pre|].
  rewrite (check_for_commands_run m w c cmds Hs Hhttp).
  rewrite <- Hlist.
  destruct (execute_until_improper pre (mkMachine (self m) w) bad post e Hall Hbad) as [Hv Hr].
  cbn [value events]. by rewrite Hv, He.
Qed.

(** X8. The status a command is reported with is decided by its
    dispatch: [completed] when the action returned true, [failed] when it
    returned false or raised.  The execution itself returns normally and
    changes no attribute of the agent. *)
Theorem reported_status_follows_dispatch command command_type id m :
  Py.item command "command_type" = Ret command_type ->
  Py.item command "id" = Ret id ->
  let o := execute_command command m in
  value o = Ret tt /\
  self (after o) = self m /\
  reports (events o)
    = [(id, match value (dispatch command m) with
            | Ret true => "completed"
            | Ret false => "failed"
            | Raise _ => "failed"
            end)].
Proof.
  intros Hct Hid o. destruct (execute_command_report command command_type id m Hct Hid) as [Hv Hr].
  split; [done|]. split; [apply execute_command_same_self|].
  subst o. rewrite Hr. by destruct (value (dispatch command m)) as [[]|].
Qed.

(** X9. A depth-analysis command whose payload names a camera and a
    virtual sensor is reported [completed] and nothing else happens:
    the action is a stub that looks at neither. *)
Theorem analyze_snow_depth_reports_completed command id payload camera_id virtual_sensor_id m :
  Py.item command "command_type" = Ret (JStr "ANALYZE_SNOW_DEPTH") ->
  Py.item command "id" = Ret id ->
  Py.item command "payload" = Ret payload ->
  Py.item payload "camera_id" = Ret camera_id ->
  Py.item payload "virtual_sensor_id" = Ret virtual_sensor_id ->
  exists reply w,
    execute_command command m
      = mkOut (Ret tt) (mkMachine (self m) w) [EvHttp (PostStatus id "completed") reply].
Proof.
  intros Hct Hid Hp Hc Hv. unfold execute_command, dispatch, analyze_snow_depth.
  rewrite Hct, Hid, Hp. unfold try_except, bind, lift, ret. simpl.
  change (Py.eqb (JStr "ANALYZE_SNOW_DEPTH") (JStr "CAPTURE_IMAGE")) with false.
  change (Py.eqb (JStr "ANALYZE_SNOW_DEPTH") (JStr "ANALYZE_SNOW_DEPTH")) with true. simpl.
  rewrite Hc, Hv. simpl.
  destruct (update_command_status_spec id "completed" m) as (reply & w & ->).
  simpl. by eauto.
Qed.

End commands_more.

(** ** The sampling pass: what it contains and what escapes it *)

Section pass_more.
Context {H : Host}.

Lemma loop_returns now active : forall m,
  (forall x, x ∈ active -> well_formed (global_read_frequency_seconds (self m)) x) ->
  value (for_each active (process_sensor now) m) = Ret tt.
Proof.
  induction active as [|x rest IH]; intros m Hwf; [done|].
  assert (well_formed (global_read_frequency_seconds (self m)) x) as Hwx
    by (apply Hwf; left).
  pose proof Hwx as ((k & Hk) & _ & (f & Hf) & _).
  destruct (process_sensor_well_formed now x m k f Hwx Hk Hf) as (Hv & Hg & _).
  simpl. unfold bind. destruct (process_sensor now x m) as [v m1 e1]; simpl in *. subst v.
  specialize (IH m1). destruct (for_each rest (process_sensor now) m1) as [v2 m2 e2].
  simpl in *. apply IH. intros y Hy. rewrite Hg. apply Hwf. by right.
Qed.

(** X10. A sampling pass over a configuration whose candidate sensors
    are well formed (a hashable id, a name, a numeric frequency, a driver
    name) returns normally whatever the host does: no failure to load a
    driver, no exception of a driver's read and no failed submission
    reaches the caller of the pass. *)
Theorem pass_contains_failures m sensors_json sensors active :
  Py.get_default (config (self m)) "sensors" (JArr []) = Ret sensors_json ->
  Py.iter sensors_json = Ret sensors ->
  active_sensors sensors = Ret active ->
  (forall x, x ∈ active -> well_formed (global_read_frequency_seconds (self m)) x) ->
  value (process_sensors m) = Ret tt.
Proof.
  intros Hsj Hit Hact Hwf.
  destruct (process_sensors_gate m) as [[Hs Hc]| ->]; [|done].
  rewrite (process_sensors_open m Hs Hc).
  unfold process_sensors_at, bind, get_self. simpl.
  rewrite Hsj. simpl. rewrite Hit. simpl. rewrite Hact. simpl.
  pose proof (loop_returns (time_time (world m)).2 active
                (mkMachine (self m) (time_time (world m)).1) Hwf) as Hloop.
  by destruct (for_each active _ _).
Qed.

Lemma attempt_without_driver_name s id m e :
  (Py.item s "parser_config" = Raise e \/
   (exists pc, Py.item s "parser_config" = Ret pc /\ Py.item pc "driver" = Raise e)) ->
  attempt_read s id m = mkOut (Raise e) m [].
Proof.
  intros Hname. unfold attempt_read, try_except, read_and_send, driver_name_of, bind.
  destruct Hname as [Hpc|(pc & Hpc & Hdn)]; rewrite Hpc; simpl; [done|].
  by rewrite Hdn.
Qed.

(** X11. What escapes the loop body.  A candidate sensor without an
    ['id'] raises the exception of the lookup before anything is done.
    A sensor whose read is due but that names no driver (no
    ['parser_config'], or none with a ['driver']) raises too: the lookup
    fails in the [try] block and again in the handler's log line; by then
    the attempt is announced and the timestamp is set.  In both cases the
    exception ends the loop: the sensors after it are not looked at. *)
Theorem loop_body_escapes now s m rest :
  (forall e,
      Py.item s "id" = Raise e ->
      for_each (s :: rest) (process_sensor now) m = mkOut (Raise e) m []) /\
  (forall id k fj f name e,
      Py.item s "id" = Ret id ->
      Py.hash_key id = Ret k ->
      effective_frequency (global_read_frequency_seconds (self m)) s = Ret fj ->
      Py.as_num fj = Ret f ->
      Py.item s "name" = Ret name ->
      f <= now - last_read (self m) k ->
      (Py.item s "parser_config" = Raise e \/
       (exists pc, Py.item s "parser_config" = Ret pc /\ Py.item pc "driver" = Raise e)) ->
      for_each (s :: rest) (process_sensor now) m
        = mkOut (Raise e) (mark k now m) [EvReadStart s]).
Proof.
  split.
  - intros e Hid. simpl. unfold bind at 1. unfold process_sensor, bind. by rewrite Hid.
  - intros id k fj f name e Hid Hk Hfj Hf Hname Hdue Hdriver.
    simpl. unfold bind at 1.
    rewrite (process_sensor_due _ _ _ _ _ _ _ _ Hid Hk Hfj Hf Hname Hdue).
    by rewrite (attempt_without_driver_name _ _ _ _ Hdriver).
Qed.

Lemma set_state_no_request s m :
  exists evs,
    _set_state s m = mkOut (Ret tt) (mkMachine (set_state_field s (self m)) (world m)) evs /\
    filter (fun e => is_http e = true) evs = [].
Proof.
  unfold _set_state, bind, get_self, modify_self, emit, ret.
  destruct (decide (state (self m) = s)) as [<-|]; simpl; eexists; split;
    first [done | by destruct m as [[]]].
Qed.

(** X12. A reading submission never raises and makes one request.  When
    the request gets no reply or an error status the state becomes
    OFFLINE; otherwise no attribute changes (a submission that succeeds
    does not bring the state back to ONLINE).  The configuration, the
    timestamps and the driver cache are never touched. *)
Theorem send_reading_outcomes id r m :
  let o := send_reading id r m in
  let reply := (http (world m) (PostReading id r)).2 in
  value o = Ret tt /\
  filter (fun e => is_http e = true) (events o) = [EvHttp (PostReading id r) reply] /\
  self (after o)
    = (if is_failed_submission (EvHttp (PostReading id r) reply)
       then set_state_field OFFLINE (self m)
       else self m).
Proof.
  unfold send_reading, try_except, request_, raise_for_status, bind, call, emit, raise, ret.
  destruct (http (world m) (PostReading id r)) as [w [|code b]]; simpl.
  - destruct (set_state_no_request OFFLINE (mkMachine (self m) w)) as (evs & -> & Hevs).
    simpl. rewrite filter_cons. simpl. by rewrite Hevs.
  - destruct (is_http_error code) eqn:Hcode; simpl; [|done].
    destruct (set_state_no_request OFFLINE (mkMachine (self m) w)) as (evs & -> & Hevs).
    simpl. rewrite filter_cons. simpl. by rewrite Hevs.
Qed.

End pass_more.

(** ** Image capture *)

Section capture_more.
Context {H : Host}.

(** [find_camera] returns the first camera of the list whose id equals
    the one asked for. *)
Lemma find_camera_first cameras camera_id c :
  find_camera cameras camera_id = Ret (Some c) ->
  exists pre post i,
    cameras = pre ++ c :: post /\
    Forall (fun x => exists j, Py.item x "id" = Ret j /\ Py.eqb j camera_id = false) pre /\
    Py.item c "id" = Ret i /\ Py.eqb i camera_id = true.
Proof.
  induction cameras as [|x rest IH]; simpl; [done|].
  destruct (Py.item x "id") as [j|] eqn:Hj; [|done].
  destruct (Py.eqb j camera_id) eqn:Heq.
  - intros [= ->]. exists [], rest, j. by repeat split.
  - intros Hrest. destruct (IH Hrest) as (pre & post & i & -> & Hpre & Hi & Hmatch).
    exists (x :: pre), post, i. repeat split; try done. constructor; by eauto.
Qed.

Lemma capture_image_same_self camera_id : respects (on_self same_self) (capture_image camera_id).
Proof.
  assert (ComposableSelf same_self) by (split; unfold same_self; [done | congruence]).
  unfold capture_image. walk. all: self_leaves ltac:(done).
Qed.

(** X13. A capture is started only on a camera of the configuration: the
    first one whose id equals the id asked for, and only when it has a
    non-empty ['rtsp_url'].  When no camera has that id, or the camera
    has no stream address, [capture_image] returns false and nothing
    happens: no directory is made, no capture is started.  In no case
    does it change an attribute of the agent. *)
Theorem capture_only_configured_camera camera_id m :
  (forall c,
      EvCapture c ∈ events (capture_image camera_id m) ->
      exists cameras_json cameras pre post i url,
        Py.get_default (config (self m)) "cameras" (JArr []) = Ret cameras_json /\
        Py.iter cameras_json = Ret cameras /\
        cameras = pre ++ c :: post /\
        Forall (fun x => exists j, Py.item x "id" = Ret j /\ Py.eqb j camera_id = false) pre /\
        Py.item c "id" = Ret i /\ Py.eqb i camera_id = true /\
        Py.get c "rtsp_url" = Ret url /\ Py.truthy url = true) /\
  (forall cameras_json cameras,
      Py.get_default (config (self m)) "cameras" (JArr []) = Ret cameras_json ->
      Py.iter cameras_json = Ret cameras ->
      find_camera cameras camera_id = Ret None ->
      capture_image camera_id m = mkOut (Ret false) m []) /\
  (forall cameras_json cameras c url,
      Py.get_default (config (self m)) "cameras" (JArr []) = Ret cameras_json ->
      Py.iter cameras_json = Ret cameras ->
      find_camera cameras camera_id = Ret (Some c) ->
      Py.get c "rtsp_url" = Ret url ->
      Py.truthy url = false ->
      capture_image camera_id m = mkOut (Ret false) m []) /\
  self (after (capture_image camera_id m)) = self m.
Proof.
  split; [|split; [|split]].
  - intros c. unfold capture_image, bind, get_self, lift, ret, raise, call, emit. simpl.
    destruct (Py.get_default (config (self m)) "cameras" (JArr [])) as [cj|] eqn:Hcj; simpl;
      [|by intros ?%elem_of_nil].
    destruct (Py.iter cj) as [l|] eqn:Hl; simpl; [|by intros ?%elem_of_nil].
    destruct (find_camera l camera_id) as [[c'|]|] eqn:Hfind; simpl;
      try by intros ?%elem_of_nil.
    destruct (Py.truthy c'); simpl; [|by intros ?%elem_of_nil].
    destruct (Py.get c' "rtsp_url") as [url|] eqn:Hurl; simpl; [|by intros ?%elem_of_nil].
    destruct (Py.truthy url) eqn:Htruthy; simpl; [|by intros ?%elem_of_nil].
    destruct (prepare_upload (world m)) as [w1 [[]|]]; simpl; [|by intros ?%elem_of_nil].
    destruct (Py.item c' "name") as [name|]; simpl; [|by intros ?%elem_of_nil].
    destruct (grab_and_upload w1 c' camera_id) as [w2 [b|]]; simpl;
      intros [= ->]%list_elem_of_singleton;
      destruct (find_camera_first _ _ _ Hfind) as (pre & post & i & ? & ? & ? & ?);
      exists cj, l, pre, post, i, url; by repeat split.
  - intros cj l Hcj Hl Hfind.
    unfold capture_image, bind, get_self, lift, ret. simpl.
    rewrite Hcj. simpl. rewrite Hl. simpl. by rewrite Hfind.
  - intros cj l c url Hcj Hl Hfind Hurl Htruthy.
    unfold capture_image, bind, get_self, lift, ret. simpl.
    rewrite Hcj. simpl. rewrite Hl. simpl. rewrite Hfind. simpl.
    destruct (Py.truthy c); simpl; [|done]. rewrite Hurl. simpl. by rewrite Htruthy.
  - apply capture_image_same_self.
Qed.

End capture_more.

(** ** The registry: names that are not strings, and the class name *)

Section registry_more.
Context {H : Host}.

Lemma hash_key_string name s : Py.hash_key name = Ret (Py.KStr s) -> name = JStr s.
Proof. destruct name as [|[]| | | |]; simpl; congruence. Qed.

(** [load_driver] on a name that is not a string. *)
Lemma load_driver_non_string name m :
  (forall s, name <> JStr s) ->
  load_driver name m = mkOut (Raise TypeError) m [] \/
  (exists k d, Py.hash_key name = Ret k /\ driver_instances (self m) !! k = Some d) \/
  (exists w, load_driver name m
             = mkOut (Ret None) (mkMachine (self m) w) [EvExecModule (Py.str name)]).
Proof.
  intros Hname.
  unfold load_driver, bind, lift, get_self, emit, call, modify_self, ret, raise.
  destruct name as [|b|n|s|l|kvs]; simpl; try (by left); try (by destruct (Hname s)).
  all: match goal with
       | |- context [driver_instances ?a !! ?k] =>
           destruct (driver_instances a !! k) as [d|] eqn:Hk; simpl;
           [right; left; by eauto|]
       end.
  all: right; right.
  all: match goal with
       | |- context [exec_module ?w0 ?stem] =>
           destruct (exec_module w0 stem) as [w [module|]]; simpl; by eauto
       end.
Qed.

#[local] Instance keeps_string_keys_composable : ComposableSelf keeps_string_keys.
Proof. split; unfold keeps_string_keys; by auto. Qed.

Lemma load_driver_keeps_string_keys name :
  respects (on_self keeps_string_keys) (load_driver name).
Proof.
  intros m. unfold on_self, keeps_string_keys.
  destruct (load_driver_cases name m)
    as [(e & _ & ->)|[(k & d & _ & _ & ->)|[(k & w & _ & _ & ->)|(k & w & d & Hk & Hnone & Hl)]]];
    simpl; try done.
  intros Hkeys.
  assert (exists s, name = JStr s) as (s & ->).
  { destruct name as [|b|n|s|l|kvs]; try by eauto.
    all: exfalso.
    all: match type of Hl with
         | load_driver ?x _ = _ =>
             destruct (load_driver_non_string x m) as [Hl'|[(k' & d' & Hk' & Hd')|(w' & Hl')]];
               [by intros s | | |]
         end.
    all: try (rewrite Hl' in Hl; discriminate).
    all: assert (k' = k) as -> by congruence; congruence. }
  injection Hk as <-.
  rewrite Hl. simpl. intros k' d'. rewrite lookup_insert. case_decide; [by eauto|apply Hkeys].
Qed.

Lemma start_keeps_string_keys n : respects (on_self keeps_string_keys) (start n).
Proof.
  pose proof load_driver_keeps_string_keys.
  assert (respects (on_self keeps_string_keys) fetch_config) as Hf.
  { unfold fetch_config. walk. all: self_leaves ltac:(unfold keeps_string_keys; simpl; by auto). }
  assert (respects (on_self keeps_string_keys) check_for_commands) as Hc.
  { unfold check_for_commands. walk. all: self_leaves ltac:(unfold keeps_string_keys; simpl; by auto). }
  assert (respects (on_self keeps_string_keys) process_sensors) as Hp.
  { apply respects_process_sensors; [apply _ | intros; walk |].
    intros now x _. unfold_pass. walk. all: self_leaves ltac:(unfold keeps_string_keys; simpl; by auto). }
  assert (forall n t1 t2, respects (on_self keeps_string_keys) (main_loop n t1 t2)) as Hloop.
  { clear n. induction n as [|n IH]; intros t1 t2; simpl; walk. }
  unfold start. walk.
Qed.

(** X14. A driver name that is not a string never yields a driver.  A
    list or an object cannot be looked up in the cache: [load_driver]
    raises [TypeError] and does nothing.  Any other value (null, a number,
    a boolean) gives [None]: the file of that name may be loaded, but no
    class is looked up and nothing is constructed or cached.  This holds
    in every state whose cache has string keys only, and every state the
    main loop reaches from [__init__] is one. *)
Theorem non_string_driver_names :
  (forall name m,
      (forall s, name <> JStr s) ->
      string_keys (driver_instances (self m)) ->
      let o := load_driver name m in
      (o = mkOut (Raise TypeError) m [] \/
       exists w, o = mkOut (Ret None) (mkMachine (self m) w) [EvExecModule (Py.str name)])) /\
  (forall n w, string_keys (driver_instances (self (after (start n (mkMachine Agent_init w)))))).
Proof.
  split.
  - intros name m Hname Hkeys o.
    destruct (load_driver_non_string name m Hname) as [Hl|[(k & d & Hk & Hd)|Hl]];
      [by left | | by right].
    destruct (Hkeys k d Hd) as (s & ->). by destruct (Hname s); apply hash_key_string.
  - intros n w. apply (start_keeps_string_keys n (mkMachine Agent_init w)).
    intros k d. simpl. by rewrite lookup_empty.
Qed.

End registry_more.

(** ** The class name of a driver *)

Section class_name_shape.

Lemma underscores_append a b : underscores (a ++ b)%string = (underscores a + underscores b)%nat.
Proof. induction a as [|c a IH]; simpl; [done|]. rewrite IH. lia. Qed.

Lemma string_length_append a b :
  String.length (a ++ b)%string = (String.length a + String.length b)%nat.
Proof. induction a as [|c a IH]; simpl; [done|]. by rewrite IH. Qed.

Lemma upper_underscore c : Ascii.eqb (Py.upper c) "_"%char = Ascii.eqb c "_"%char.
Proof. by destruct c as [[] [] [] [] [] [] [] []]. Qed.

Lemma lower_underscore c : Ascii.eqb (Py.lower c) "_"%char = Ascii.eqb c "_"%char.
Proof. by destruct c as [[] [] [] [] [] [] [] []]. Qed.

Lemma upper_lower c : Py.upper (Py.lower c) = Py.upper c.
Proof. by destruct c as [[] [] [] [] [] [] [] []]. Qed.

Lemma lower_lower c : Py.lower (Py.lower c) = Py.lower c.
Proof. by destruct c as [[] [] [] [] [] [] [] []]. Qed.

Lemma underscores_lower w : underscores (Py.map_string Py.lower w) = underscores w.
Proof. induction w as [|c w IH]; simpl; [done|]. by rewrite lower_underscore, IH. Qed.

Lemma underscores_capitalize w : underscores (Py.capitalize w) = underscores w.
Proof. destruct w as [|c w]; simpl; [done|]. by rewrite upper_underscore, underscores_lower. Qed.

Lemma length_lower w : String.length (Py.map_string Py.lower w) = String.length w.
Proof. induction w as [|c w IH]; simpl; [done|]. by rewrite IH. Qed.

Lemma length_capitalize w : String.length (Py.capitalize w) = String.length w.
Proof. destruct w as [|c w]; simpl; [done|]. by rewrite length_lower. Qed.

Lemma capitalize_lower w : Py.capitalize (Py.map_string Py.lower w) = Py.capitalize w.
Proof.
  destruct w as [|c w]; simpl; [done|]. rewrite upper_lower. f_equal.
  induction w as [|d w IH]; simpl; [done|]. by rewrite lower_lower, IH.
Qed.

Lemma split_underscore_cons s : exists w ws, Py.split_underscore s = w :: ws.
Proof.
  induction s as [|c s (w & ws & IH)]; simpl; [by eauto|].
  destruct (Ascii.eqb c "_"%char); [by eauto|]. rewrite IH. by eauto.
Qed.

Lemma split_underscore_words s :
  Forall (fun w => underscores w = 0%nat) (Py.split_underscore s).
Proof.
  induction s as [|c s IH]; simpl; [by repeat constructor|].
  destruct (Ascii.eqb c "_"%char) eqn:Hc; [by constructor|].
  destruct (Py.split_underscore s) as [|w ws]; simpl.
  - repeat constructor. simpl. by rewrite Hc.
  - apply Forall_cons in IH as [Hw Hws]. constructor; [|done]. simpl. by rewrite Hc, Hw.
Qed.

Lemma split_underscore_lower s :
  Py.split_underscore (Py.map_string Py.lower s)
    = map (Py.map_string Py.lower) (Py.split_underscore s).
Proof.
  induction s as [|c s IH]; simpl; [done|]. rewrite lower_underscore.
  destruct (Ascii.eqb c "_"%char); simpl; [by rewrite IH|].
  rewrite IH. destruct (split_underscore_cons s) as (w & ws & ->). done.
Qed.

Lemma stem_underscores ws :
  Forall (fun w => underscores w = 0%nat) ws ->
  underscores (Py.join (map Py.capitalize ws)) = 0%nat.
Proof.
  induction 1 as [|w ws Hw _ IH]; simpl; [done|].
  by rewrite underscores_append, underscores_capitalize, Hw, IH.
Qed.

Lemma stem_length s :
  (String.length (Py.join (map Py.capitalize (Py.split_underscore s))) + underscores s
   = String.length s)%nat.
Proof.
  induction s as [|c s IH]; [done|].
  destruct (split_underscore_cons s) as (w & ws & Hs).
  cbn [Py.split_underscore underscores]. rewrite Hs in IH |- *.
  unfold Py.join in IH |- *.
  destruct (Ascii.eqb c "_"%char); cbn [map fold_right] in IH |- *;
    rewrite !string_length_append, !length_capitalize in IH |- *;
    rewrite ?string_length_append, ?length_capitalize; simpl in IH |- *; lia.
Qed.

(** X15. For a driver name of ASCII characters, the class name
    [load_driver] looks up holds no underscore, is as long as the name
    without its underscores plus the six letters of ["Driver"], and does
    not depend on the case of the name's letters (the file that is loaded
    and the cache entry do).  Outside ASCII [str.capitalize] follows
    Unicode, which [Py.capitalize] does not: the statement is about ASCII
    names only. *)
Theorem class_name_shape s :
  isascii s = true ->
  underscores (class_name s) = 0%nat /\
  (String.length (class_name s) + underscores s = String.length s + 6)%nat /\
  class_name (Py.map_string Py.lower s) = class_name s.
Proof.
  intros _. unfold class_name. split; [|split].
  - rewrite underscores_append, stem_underscores by apply split_underscore_words. done.
  - rewrite string_length_append. pose proof (stem_length s). simpl. lia.
  - f_equal. rewrite split_underscore_lower, map_map. f_equal.
    apply map_ext. intros w. apply capitalize_lower.
Qed.

End class_name_shape.

(** ** The main loop *)

Section main_loop_more.
Context {H : Host}.

Lemma events_bind {A B} (c : M A) (k : A -> M B) m :
  events (bind c k m) =
    events (c m) ++ match value (c m) with
                    | Ret a => events (k a (after (c m)))
                    | Raise _ => []
                    end.
Proof.
  unfold bind. destruct (c m) as [[a|e] m1 e1]; simpl; [|by rewrite app_nil_r].
  by destruct (k a m1).
Qed.

Lemma filter_all_false (P : event -> bool) l :
  Forall (fun e => P e = false) l -> filter (fun e => P e = true) l = [].
Proof.
  induction 1 as [|e l He _ IH]; [done|].
  rewrite filter_cons. destruct (decide (P e = true)); [congruence|done].
Qed.

Lemma polls_no_config_request :
  respects (all_events (fun e => is_config_request e = false)) check_for_commands /\
  respects (all_events (fun e => is_config_request e = false)) process_sensors.
Proof.
  split.
  - unfold check_for_commands, execute_command, dispatch, capture_image.
    unfold_transport. walk.
  - apply respects_process_sensors; [apply _ | intros; walk |].
    intros now x _. unfold_pass. unfold load_driver. unfold_transport. walk.
Qed.

Lemma fetch_config_one_request m :
  filter (fun e => is_config_request e = true) (events (fetch_config m))
    = [EvHttp GetConfig (http (world m) GetConfig).2].
Proof.
  unfold fetch_config, try_except, request_, raise_for_status, response_json, _set_state,
    bind, call, emit, raise, ret, lift, get_self, modify_self.
  repeat (simpl; destruct_inner); simpl; done.
Qed.

Lemma bind_call {A B} (f : World -> World * A) (k : A -> M B) m :
  bind (call f) k m = k (f (world m)).2 (mkMachine (self m) (f (world m)).1).
Proof.
  unfold bind, call. destruct (f (world m)) as [w a]; simpl.
  by destruct (k a _).
Qed.

Lemma filter_events_bind_tail {A B} (P : event -> bool) (c : M A) (k : A -> M B) m :
  (forall a, respects (all_events (fun e => P e = false)) (k a)) ->
  filter (fun e => P e = true) (events (bind c k m))
    = filter (fun e => P e = true) (events (c m)).
Proof.
  intros Hk. rewrite events_bind, filter_app.
  destruct (value (c m)) as [a|]; [|by rewrite app_nil_r].
  by rewrite (filter_all_false _ _ (Hk a _)), app_nil_r.
Qed.

(** X16. One round of the main loop asks for the configuration exactly
    once when at least [CONFIG_POLL_INTERVAL] seconds have passed on the
    clock since the last fetch, and not at all otherwise: neither the
    command poll nor the sampling pass of the round asks for it, whatever
    they do and however they end. *)
Theorem config_poll_cadence last_config_fetch last_command_check m :
  filter (fun e => is_config_request e = true)
         (events (main_loop 1 last_config_fetch last_command_check m))
    = if CONFIG_POLL_INTERVAL <=? (time_time (world m)).2 - last_config_fetch
      then [EvHttp GetConfig (http (time_time (world m)).1 GetConfig).2]
      else [].
Proof.
  destruct polls_no_config_request as [Hc Hp].
  cbn [main_loop]. rewrite bind_call.
  destruct (time_time (world m)) as [w t]; simpl.
  rewrite filter_events_bind_tail.
  - destruct (CONFIG_POLL_INTERVAL <=? t - last_config_fetch); [|done].
    rewrite filter_events_bind_tail by (intros; walk).
    apply fetch_config_one_request.
  - intros a. walk.
Qed.

End main_loop_more.

(** ** Start-up *)

Section start_more.
Context {H : Host}.

Lemma fetch_config_incomplete_out m w code kvs :
  http (world m) GetConfig = (w, Reply code (BodyJson (JObj kvs))) ->
  is_http_error code = false ->
  Py.assoc "sensors" kvs = None \/ Py.assoc "cameras" kvs = None ->
  exists e g evs,
    fetch_config m =
      mkOut (Raise e)
        (mkMachine
           {| state := CONFIGURING;
              config := JObj kvs;
              driver_instances := driver_instances (self m);
              last_read_times := last_read_times (self m);
              global_read_frequency_seconds := g |} w)
        (evs ++ [EvHttp GetConfig (Reply code (BodyJson (JObj kvs)))]) /\
    filter (fun e => is_http e = true) evs = [].
Proof.
  intros Hhttp Hcode Hmissing. unfold fetch_config.
  unfold bind at 1. destruct (set_state_no_request CONFIGURING m) as (ev0 & -> & Hev0).
  unfold try_except, request_, raise_for_status, response_json, bind, call, emit, raise, ret,
    modify_self, lift.
  simpl. rewrite Hhttp. simpl. rewrite Hcode. simpl.
  destruct (Py.assoc "sensors" kvs) as [sensors|] eqn:Hs; simpl.
  - destruct Hmissing as [|Hc]; [done|].
    destruct (Py.len sensors) as [ns|e] eqn:Hlen; simpl.
    + rewrite Hc. simpl. do 3 eexists. split; [reflexivity|done].
    + assert (e = TypeError) as -> by (destruct sensors; simpl in Hlen; congruence).
      simpl. do 3 eexists. split; [reflexivity|done].
  - do 3 eexists. split; [reflexivity|done].
Qed.

(** X17. When the server answers the first configuration request with an
    object that lacks the ['sensors'] or the ['cameras'] entry, [start]
    returns at once, for any number of rounds it was to run: the
    exception of [fetch_config] is not one of its own handler's, reaches
    the handler of [start] and ends the run.  The agent is left in the
    state CONFIGURING with the incomplete configuration stored, and the
    configuration request is the only request of the run. *)
Theorem start_ends_on_incomplete_config n m w code kvs :
  http (world m) GetConfig = (w, Reply code (BodyJson (JObj kvs))) ->
  is_http_error code = false ->
  Py.assoc "sensors" kvs = None \/ Py.assoc "cameras" kvs = None ->
  let o := start n m in
  value o = Ret tt /\
  state (self (after o)) = CONFIGURING /\
  config (self (after o)) = JObj kvs /\
  filter (fun e => is_http e = true) (events o)
    = [EvHttp GetConfig (Reply code (BodyJson (JObj kvs)))].
Proof.
  intros Hhttp Hcode Hmissing.
  destruct (fetch_config_incomplete_out m w code kvs Hhttp Hcode Hmissing)
    as (e & g & evs & Hf & Hevs).
  assert (start n m = mkOut (Ret tt) (after (fetch_config m)) (events (fetch_config m) ++ []))
    as ->.
  { unfold start, try_except. unfold bind at 1. by rewrite Hf. }
  rewrite Hf. simpl. rewrite app_nil_r, filter_app, Hevs. done.
Qed.

End start_more.

(** ** The frame parser on any stream *)

Section frame_parser_more.
Import DfrobotUlt.

Lemma frame_at_short (l : list byte) : (List.length l < 4)%nat -> frame_at l = false.
Proof. destruct l as [|b0 [|b1 [|b2 [|b3 l]]]]; simpl; [done..|lia]. Qed.

Lemma scan_step b0 b1 b2 b3 rest :
  scan (b0 :: b1 :: b2 :: b3 :: rest) =
    if frame_at (b0 :: b1 :: b2 :: b3 :: rest)
    then inl (distance_cm (distance_mm b1 b2))
    else scan (b1 :: b2 :: b3 :: rest).
Proof.
  simpl. destruct (byte_val b0 =? 255); [|done].
  by destruct (checksum b0 b1 b2 =? byte_val b3).
Qed.

Lemma distance_mm_range b1 b2 : 0 <= distance_mm b1 b2 < 65536.
Proof.
  rewrite distance_mm_big_endian.
  pose proof (byte_val_range b1). pose proof (byte_val_range b2). lia.
Qed.

(** X18. What one scan of a buffer gives.  A distance comes from the
    first position of the buffer at which a frame stands (0xFF, two
    bytes, their checksum): no earlier position holds a frame, the
    distance is the big-endian value of the frame's two middle bytes, in
    tenths, and lies between 0 and 6553.5 cm.  Otherwise no position of
    the buffer holds a frame, and what is kept for the next read is the
    buffer's last bytes, fewer than four. *)
Theorem scan_finds_first_frame (buffer : list byte) :
  match scan buffer with
  | inl d =>
      exists i b0 b1 b2 b3 rest,
        drop i buffer = b0 :: b1 :: b2 :: b3 :: rest /\
        frame_at (drop i buffer) = true /\
        (forall j, (j < i)%nat -> frame_at (drop j buffer) = false) /\
        d = distance_cm (distance_mm b1 b2) /\
        0 <= distance_mm b1 b2 < 65536
  | inr kept =>
      (List.length kept < 4)%nat /\
      kept = drop (List.length buffer - List.length kept) buffer /\
      (forall j, frame_at (drop j buffer) = false)
  end.
Proof.
  induction buffer as [|b0 tl IH].
  { simpl. split; [lia|]. split; [done|]. by intros []. }
  destruct tl as [|b1 [|b2 [|b3 rest]]].
  1-3: simpl; split; [lia|]; split; [done|];
       intros j; apply frame_at_short; rewrite length_drop; simpl; lia.
  rewrite scan_step. destruct (frame_at (b0 :: b1 :: b2 :: b3 :: rest)) eqn:Hframe.
  - exists 0%nat, b0, b1, b2, b3, rest. simpl drop. repeat split; try done.
    + lia.
    + apply distance_mm_range.
    + apply distance_mm_range.
  - destruct (scan (b1 :: b2 :: b3 :: rest)) as [d|kept].
    + destruct IH as (i & c0 & c1 & c2 & c3 & rest' & Hdrop & Hfr & Hbefore & -> & Hrange).
      exists (S i), c0, c1, c2, c3, rest'. simpl drop. repeat split; try done; try lia.
      intros [|j] Hj; [done|]. simpl drop. apply Hbefore. lia.
    + destruct IH as (Hlen & Hkept & Hnone). split; [done|]. split.
      * simpl List.length in *.
        replace (S (S (S (S (List.length rest)))) - List.length kept)%nat
          with (S (S (S (S (List.length rest))) - List.length kept))%nat by lia.
        done.
      * intros [|j]; [done|]. apply Hnone.
Qed.

Lemma read_loop_from (chunks : list (list byte)) : forall buffer,
  scan buffer = inr buffer ->
  read_loop buffer (Chunk <$> chunks) =
    match scan (buffer ++ List.concat chunks) with
    | inl d => Some d
    | inr _ => None
    end.
Proof.
  induction chunks as [|c cs IH]; intros buffer Hshort; simpl.
  - by rewrite app_nil_r, Hshort.
  - rewrite app_assoc.
    destruct (scan (buffer ++ c)) as [d|buffer'] eqn:Hscan.
    + by rewrite (scan_app_found _ (List.concat cs) _ Hscan).
    + rewrite (scan_app_rest _ (List.concat cs) _ Hscan).
      apply IH. by eapply scan_rest_short.
Qed.

Lemma read_loop_until_error (chunks : list (list byte)) later : forall buffer,
  scan buffer = inr buffer ->
  read_loop buffer ((Chunk <$> chunks) ++ SerialError :: later) =
    read_loop buffer (Chunk <$> chunks).
Proof.
  induction chunks as [|c cs IH]; intros buffer Hshort; simpl; [done|].
  destruct (scan (buffer ++ c)) as [d|buffer'] eqn:Hscan; [done|].
  apply IH. by eapply scan_rest_short.
Qed.

(** X19. The result of the read loop depends on the bytes that arrive,
    not on how the serial port cuts them into reads: it is the first
    frame of the whole stream, or nothing when the stream holds none.
    When the port fails, the bytes that arrived before the failure
    decide in the same way, and nothing that would come later counts. *)
Theorem read_loop_any_chunking (chunks : list (list byte)) (later : list serial_read) :
  let found := match scan (List.concat chunks) with
               | inl d => Some d
               | inr _ => None
               end in
  read_loop [] (Chunk <$> chunks) = found /\
  read_loop [] ((Chunk <$> chunks) ++ SerialError :: later) = found.
Proof.
  split.
  - by rewrite read_loop_from.
  - by rewrite read_loop_until_error, read_loop_from.
Qed.

Lemma scan_value (buffer : list byte) d :
  scan buffer = inl d -> exists b1 b2, d = distance_cm (distance_mm b1 b2).
Proof.
  induction buffer as [|b0 tl IH]; [done|].
  destruct tl as [|b1 [|b2 [|b3 rest]]]; try done.
  rewrite scan_step. destruct (frame_at _); [|done].
  intros [= <-]. by eauto.
Qed.

Lemma read_loop_value reads : forall buffer d,
  read_loop buffer reads = Some d -> exists b1 b2, d = distance_cm (distance_mm b1 b2).
Proof.
  induction reads as [|[bs|] reads IH]; intros buffer d; simpl; try done.
  destruct (scan (buffer ++ bs)) as [d'|buffer'] eqn:Hscan.
  - intros [= <-]. by eapply scan_value.
  - apply IH.
Qed.

(** X20. On a configuration that is a dict the read of the distance
    driver never raises, whatever the port does (it does not open, it
    fails in the middle, it sends garbage), and a distance it returns is
    a whole number of millimetres between 0 and 65535, in centimetres. *)
Theorem lidar_read_outcomes kvs (line : option (list serial_read)) :
  match read (JObj kvs) line with
  | Ret None => True
  | Ret (Some d) => exists mm, 0 <= mm < 65536 /\ d = distance_cm mm
  | Raise _ => False
  end.
Proof.
  unfold read. simpl.
  destruct (negb _); [done|]. destruct line as [reads|]; [|done].
  destruct (read_loop [] reads) as [d|] eqn:Hloop; [|done].
  apply read_loop_value in Hloop as (b1 & b2 & ->).
  exists (distance_mm b1 b2). split; [apply distance_mm_range|done].
Qed.

End frame_parser_more.

(** ** The weather driver *)

Section weather.
Import Openweather.

Lemma round_2_number x y : round_2 x = Ret y -> exists n, y = JNum n.
Proof. destruct x; simpl; intros [= <-]; by eauto. Qed.

Lemma round_2_raises x e : round_2 x = Raise e -> e = TypeError.
Proof. destruct x; simpl; congruence. Qed.

Lemma item_raises_key_or_type x k e :
  Py.item x k = Raise e -> e = KeyError \/ e = TypeError.
Proof.
  destruct x; simpl; try (intros [= <-]; by auto).
  destruct (Py.assoc k kvs); intros [= <-]; by auto.
Qed.

Lemma main_field_number data field y :
  main_field data field = Ret y -> exists n, y = JNum n.
Proof.
  unfold main_field, and_then.
  destruct (Py.item data "main") as [main|]; [|done].
  destruct (Py.item main field) as [x|]; [|done]. apply round_2_number.
Qed.

Lemma main_field_raises data field e :
  main_field data field = Raise e -> e = KeyError \/ e = TypeError.
Proof.
  unfold main_field, and_then.
  destruct (Py.item data "main") as [main|e1] eqn:H1.
  - destruct (Py.item main field) as [x|e2] eqn:H2.
    + intros Hr. right. by eapply round_2_raises.
    + intros [= <-]. by eapply item_raises_key_or_type.
  - intros [= <-]. by eapply item_raises_key_or_type.
Qed.

Lemma parse_raises data e : parse data = Raise e -> e = KeyError \/ e = TypeError.
Proof.
  unfold parse, and_then.
  destruct (contains_main data) as [[]|e0] eqn:Hin.
  - destruct (main_field data "temp") as [t|e1] eqn:Ht.
    + destruct (main_field data "humidity") as [h|e2] eqn:Hh; [done|].
      intros [= <-]. by eapply main_field_raises.
    + intros [= <-]. by eapply main_field_raises.
  - done.
  - intros [= <-]. right. destruct data; simpl in Hin; congruence.
Qed.

Lemma parse_result data r :
  parse data = Ret (Some r) ->
  exists t h, r = JObj [("temperature", JNum t); ("humidity", JNum h)].
Proof.
  unfold parse, and_then.
  destruct (contains_main data) as [[]|]; [|done..].
  destruct (main_field data "temp") as [t|] eqn:Ht; [|done].
  destruct (main_field data "humidity") as [h|] eqn:Hh; [|done].
  intros [= <-].
  apply main_field_number in Ht as [nt ->]. apply main_field_number in Hh as [nh ->].
  by eauto.
Qed.

(** X21. What a read of the weather driver can give.  It makes no
    request, or one request built from the configuration's ['lat'],
    ['lon'] and ['apikey'], all three truthy.  It never raises a
    [RequestException]: a missing reply, an error status and a body that
    [response.json()] rejects with one give [None].  A result other than
    [None] comes after exactly one request and is a dict with the two
    entries ['temperature'] and ['humidity'], both numbers. *)
Theorem weather_read_outcomes config get :
  let o := read config get in
  o.2 <> Raise RequestException /\
  (o.1 = [] \/
   exists q, o.1 = [q] /\
     Py.get config "lat" = Ret (q_lat q) /\
     Py.get config "lon" = Ret (q_lon q) /\
     Py.get config "apikey" = Ret (q_appid q) /\
     Py.truthy (q_lat q) = true /\ Py.truthy (q_lon q) = true /\
     Py.truthy (q_appid q) = true) /\
  (forall r, o.2 = Ret (Some r) ->
     exists q t h, o.1 = [q] /\
       r = JObj [("temperature", JNum t); ("humidity", JNum h)]).
Proof.
  unfold read.
  destruct config as [| | | | |kvs]; simpl; try by (repeat split; auto).
  set (api_key := default JNull (Py.assoc "apikey" kvs)).
  set (lat := default JNull (Py.assoc "lat" kvs)).
  set (lon := default JNull (Py.assoc "lon" kvs)).
  destruct (Py.truthy api_key) eqn:Hk; simpl; [|by (repeat split; auto)].
  destruct (Py.truthy lat) eqn:Hlat; simpl; [|by (repeat split; auto)].
  destruct (Py.truthy lon) eqn:Hlon; simpl; [|by (repeat split; auto)].
  split; [|split].
  - destruct (handle _) as [r|e] eqn:Hh; [done|]. by destruct e.
  - right. by eexists (mkQuery lat lon api_key).
  - intros r Hr. exists (mkQuery lat lon api_key).
    destruct (handle _) as [r'|e] eqn:Hh; [|by destruct e].
    injection Hr as ->. unfold handle in Hh.
    destruct (get _) as [|code [data|e]]; [done| |];
      destruct (is_http_error code); try done.
    apply parse_result in Hh as (t & h & ->). by eauto.
Qed.

(** X22. A configuration whose ['apikey'], ['lat'] or ['lon'] is absent
    or falsy gives [None] without any request: so does a latitude or a
    longitude of 0, a position on the equator or on the prime
    meridian. *)
Theorem weather_needs_truthy_entries config get k v :
  k ∈ ["apikey"; "lat"; "lon"] ->
  Py.get config k = Ret v ->
  Py.truthy v = false ->
  read config get = ([], Ret None).
Proof.
  intros Hk Hget Hv. unfold read.
  destruct config as [| | | | |kvs]; try done. simpl in *.
  injection Hget as <-.
  repeat (apply elem_of_cons in Hk as [->|Hk]); [| | |by apply elem_of_nil in Hk].
  - by rewrite Hv.
  - rewrite Hv. by rewrite andb_false_r.
  - rewrite Hv. by rewrite !andb_false_r.
Qed.

(** X23. A reply without an error status whose body is a dict with a
    ['main'] dict that has no ['temp'] entry makes the read raise
    [KeyError], after its one request: the driver's handler takes
    [RequestException] only. *)
Theorem weather_incomplete_main_raises config get lat lon api_key code kvs main :
  Py.get config "lat" = Ret lat ->
  Py.get config "lon" = Ret lon ->
  Py.get config "apikey" = Ret api_key ->
  forallb Py.truthy [api_key; lat; lon] = true ->
  get (mkQuery lat lon api_key) = Reply code (BodyJson (JObj kvs)) ->
  is_http_error code = false ->
  Py.assoc "main" kvs = Some (JObj main) ->
  Py.assoc "temp" main = None ->
  read config get = ([mkQuery lat lon api_key], Raise KeyError).
Proof.
  intros Hlat Hlon Hk Hall Hget Hcode Hmain Htemp. unfold read.
  rewrite Hlat, Hlon, Hk, Hall. simpl. rewrite Hget. simpl. rewrite Hcode.
  unfold parse, main_field, and_then. simpl. rewrite Hmain. simpl. by rewrite Htemp.
Qed.

End weather.

(** ** Further runs on the scripted host *)

Section runs_more.
Import Scripted.
#[local] Existing Instance Scripted.host.

Lemma fetch_config_success_witness :
  let m := fresh (serving sample_config) in
  value (fetch_config m) = Ret tt /\
  state (self (after (fetch_config m))) = ONLINE /\
  config (self (after (fetch_config m))) = sample_config.
Proof.
  intros m.
  destruct (fetch_config_success m (serving sample_config) 200 sample_config (JNum 0)
              (JArr [sample_sensor]) (JArr []) 1 0
              eq_refl eq_refl eq_refl eq_refl eq_refl eq_refl eq_refl)
    as (Hv & Hs & Hc & _).
  by repeat split.
Defined.

Lemma command_poll_without_commands_witness :
  (let m := fresh quiet in check_for_commands m = mkOut (Ret tt) m []) /\
  (let m := online sample_config quiet in
   check_for_commands m = mkOut (Ret tt) m [EvHttp GetCommands (Reply 200 (BodyJson (JArr [])))]).
Proof.
  split; intros m.
  - apply (proj1 (command_poll_without_commands m)). discriminate.
  - apply (proj2 (command_poll_without_commands m) quiet _ eq_refl eq_refl eq_refl).
Defined.

Lemma command_poll_reports_each_witness :
  let m := online sample_config (commanding [reboot_command; analysis_command]) in
  value (check_for_commands m) = Ret tt /\
  Forall2 (fun c r => Py.item c "id" = Ret r.1) [reboot_command; analysis_command]
    (reports (events (check_for_commands m))).
Proof.
  intros m.
  apply (command_poll_reports_each m (commanding [reboot_command; analysis_command])
           reboot_command [analysis_command] eq_refl eq_refl).
  repeat constructor; do 2 eexists; split; reflexivity.
Defined.

Lemma command_poll_stops_at_improper_witness :
  let m := online sample_config
             (commanding [reboot_command; untyped_command; analysis_command]) in
  value (check_for_commands m) = Raise KeyError /\
  Forall2 (fun c r => Py.item c "id" = Ret r.1) [reboot_command]
    (reports (events (check_for_commands m))).
Proof.
  intros m.
  apply (command_poll_stops_at_improper m
           (commanding [reboot_command; untyped_command; analysis_command])
           [reboot_command] untyped_command [analysis_command] KeyError eq_refl eq_refl).
  - repeat constructor. do 2 eexists. split; reflexivity.
  - left. reflexivity.
Defined.

Lemma reported_status_follows_dispatch_witness :
  let m := online sample_config quiet in
  value (execute_command reboot_command m) = Ret tt /\
  reports (events (execute_command reboot_command m)) = [(JNum 7, "failed")].
Proof.
  intros m.
  destruct (reported_status_follows_dispatch reboot_command (JStr "REBOOT") (JNum 7) m
              eq_refl eq_refl) as (Hv & _ & Hr).
  split; [done|]. exact Hr.
Defined.

Lemma analyze_snow_depth_reports_completed_witness :
  let m := online sample_config quiet in
  exists reply w,
    execute_command analysis_command m
      = mkOut (Ret tt) (mkMachine (self m) w) [EvHttp (PostStatus (JNum 9) "completed") reply].
Proof.
  intros m.
  apply (analyze_snow_depth_reports_completed analysis_command (JNum 9)
           (JObj [("camera_id", JNum 1); ("virtual_sensor_id", JNum 5)]) (JNum 1) (JNum 5) m);
    reflexivity.
Defined.

Lemma pass_contains_failures_witness :
  let m := online sample_config (with_reading_reply NoReply quiet) in
  value (process_sensors m) = Ret tt.
Proof.
  intros m.
  apply (pass_contains_failures m (JArr [sample_sensor]) [sample_sensor] [sample_sensor]
           eq_refl eq_refl eq_refl).
  intros x ->%list_elem_of_singleton. unfold well_formed. by eauto 10.
Defined.

Lemma loop_body_escapes_witness :
  let m := online (one_sensor_config driverless_sensor) quiet in
  for_each [driverless_sensor; sample_sensor] (process_sensor 1000) m
    = mkOut (Raise KeyError) (mark (Py.KInt 3) 1000 m) [EvReadStart driverless_sensor].
Proof.
  intros m.
  apply (proj2 (loop_body_escapes 1000 driverless_sensor m [sample_sensor])
           (JNum 3) (Py.KInt 3) (JNum 60) 60 (JStr "bare") KeyError
           eq_refl eq_refl eq_refl eq_refl eq_refl).
  - vm_compute. discriminate.
  - left. reflexivity.
Defined.

Lemma capture_only_configured_camera_witness :
  let m := online sample_config quiet in
  capture_image (JNum 1) m = mkOut (Ret false) m [].
Proof.
  intros m.
  destruct (capture_only_configured_camera (JNum 1) m) as (_ & Hnone & _).
  apply (Hnone (JArr []) []); reflexivity.
Defined.

Lemma non_string_driver_names_witness :
  let m := fresh quiet in
  load_driver (JNum 5) m = mkOut (Raise TypeError) m [] \/
  exists w, load_driver (JNum 5) m
              = mkOut (Ret None) (mkMachine (self m) w) [EvExecModule (Py.str (JNum 5))].
Proof.
  intros m. apply (proj1 non_string_driver_names (JNum 5) m).
  - discriminate.
  - intros k d Hk. unfold m in Hk. simpl in Hk. by rewrite lookup_empty in Hk.
Defined.

Lemma start_ends_on_incomplete_config_witness :
  let o := start 3 (fresh (serving (JObj []))) in
  value o = Ret tt /\
  state (self (after o)) = CONFIGURING /\
  config (self (after o)) = JObj [] /\
  filter (fun e => is_http e = true) (events o)
    = [EvHttp GetConfig (Reply 200 (BodyJson (JObj [])))].
Proof.
  apply (start_ends_on_incomplete_config 3 (fresh (serving (JObj []))) (serving (JObj []))
           200 [] eq_refl eq_refl (or_introl eq_refl)).
Defined.

Lemma class_name_shape_witness :
  underscores (class_name "Dfrobot_ULT") = 0%nat /\
  (String.length (class_name "Dfrobot_ULT") + underscores "Dfrobot_ULT"
   = String.length "Dfrobot_ULT" + 6)%nat /\
  class_name (Py.map_string Py.lower "Dfrobot_ULT") = class_name "Dfrobot_ULT".
Proof. apply (class_name_shape "Dfrobot_ULT"). reflexivity. Defined.

Lemma weather_needs_truthy_entries_witness :
  Openweather.read equator_config humidity_only = ([], Ret None).
Proof.
  apply (weather_needs_truthy_entries equator_config humidity_only "lat" (JNum 0));
    [|reflexivity..].
  right. left.
Defined.

Lemma weather_incomplete_main_raises_witness :
  Openweather.read north_config humidity_only
    = ([Openweather.mkQuery (JNum 41) (JNum 29) (JStr "key")], Raise KeyError).
Proof.
  apply (weather_incomplete_main_raises north_config humidity_only (JNum 41) (JNum 29)
           (JStr "key") 200 [("main", JObj [("humidity", JNum 40)])] [("humidity", JNum 40)]);
    reflexivity.
Defined.

End runs_more.
